(** * Torrent.js: the torrent-record normalisation engine of flood

    A shallow embedding of [server/models/Torrent.js] and the proofs of the
    properties its specification states about it.

    The file has six parts:
    - the fragment of ECMAScript the class relies on: primitive values,
      numbers as IEEE 754 binary64 (the primitive floats), strings as
      sequences of code units (those below 256), and the string and number
      built-ins that are called;
    - the collaborators that live in other modules of the repository, and
      the store of objects: an object is the map of its own properties,
      and what it inherits from [Object.prototype] is read and written as
      ECMAScript says where a property name is computed;
    - the class itself, method by method, in the order of the source;
    - the notions in which the specification speaks, and data for examples;
    - the lemmas and theorems about the properties the specification
      states;
    - further properties of the code. *)

From Stdlib Require Import ZArith Floats String Ascii List Lia Bool.
From Stdlib Require Import DecimalString DecimalPos DecimalN.
From stdpp Require Import gmap strings list sorting.

Local Open Scope string_scope.
Local Open Scope Z_scope.

(* ===================================================================== *)
(** * Part 1: the ECMAScript fragment                                     *)
(* ===================================================================== *)

(** ** Completions

    A call either returns a value or throws.  Only two kinds of exception
    can be raised by the built-ins the class calls. *)

Inductive exn : Type :=
| TypeError
| URIError.

Inductive completion (A : Type) : Type :=
| Returns (a : A)
| Throws (e : exn).

Arguments Returns {A} a.
Arguments Throws {A} e.

Global Instance completion_ret : MRet completion := @Returns.

Global Instance completion_bind : MBind completion := fun A B k c =>
  match c with
  | Returns a => k a
  | Throws e => Throws e
  end.

Definition returns {A} (c : completion A) : Prop := exists a, c = Returns a.

(** ** Values

    The raw snapshot holds primitive values only.  A derived record also
    holds arrays (of tags, of domains); [VRef] is a reference to an object
    of the store (Part 2).  What an object inherits from
    [Object.prototype] can be read under its name like a field:
    [VFunction name] is the function that [Object.prototype] holds under
    [name], and [VObjectPrototype] the object [Object.prototype] itself,
    which is what the accessor [__proto__] gives. *)

Definition loc := nat.

Inductive prim : Type :=
| PUndefined
| PNull
| PBool (b : bool)
| PNum (x : float)
| PStr (s : string).

Inductive value : Type :=
| VPrim (p : prim)
| VArr (l : list value)
| VRef (l : loc)
| VFunction (name : string)
| VObjectPrototype.

Coercion VPrim : prim >-> value.

Definition NaN : float := nan.

(** ** Strings: code units, white space, trimming *)

Definition code (c : ascii) : N := N_of_ascii c.

(** WhiteSpace and LineTerminator code units (those below 256). *)
Definition is_white (c : ascii) : bool :=
  match code c with
  | 9 | 10 | 11 | 12 | 13 | 32 | 160 => true
  | _ => false
  end%N.

Fixpoint trimStart (s : string) : string :=
  match s with
  | String c s' => if is_white c then trimStart s' else s
  | EmptyString => EmptyString
  end.

Fixpoint trimEnd (s : string) : string :=
  match s with
  | EmptyString => EmptyString
  | String c s' =>
      match trimEnd s' with
      | EmptyString => if is_white c then EmptyString else String c EmptyString
      | t => String c t
      end
  end.

(** String.prototype.trim *)
Definition trim (s : string) : string := trimEnd (trimStart s).

(** ** Numbers: reading a string as a number (StringToNumber) *)

Definition digit_of (radix : N) (c : ascii) : option Z :=
  let n := code c in
  let d :=
    if (48 <=? n)%N && (n <=? 57)%N then Some (n - 48)%N
    else if (97 <=? n)%N && (n <=? 122)%N then Some (n - 87)%N
    else if (65 <=? n)%N && (n <=? 90)%N then Some (n - 55)%N
    else None in
  match d with
  | Some d => if (d <? radix)%N then Some (Z.of_N d) else None
  | None => None
  end.

(** The longest prefix of digits: its value, its length, and the rest. *)
Fixpoint digits (radix : N) (acc : Z) (len : Z) (s : string) : Z * Z * string :=
  match s with
  | String c s' =>
      match digit_of radix c with
      | Some d => digits radix (acc * Z.of_N radix + d) (len + 1) s'
      | None => (acc, len, s)
      end
  | EmptyString => (acc, len, s)
  end.

(** The number nearest to [m * 10^e] (ties to even), [m >= 0]. *)
Definition round_decimal (neg : bool) (m e : Z) : float :=
  match m with
  | Zpos p =>
      if 0 <=? e
      then SF2Prim (binary_normalize prec emax
                      ((if neg then Zneg p else Zpos p) * 10 ^ e) 0 neg)
      else SF2Prim (SFdiv prec emax (S754_finite neg p 0)
                      (S754_finite false (Z.to_pos (10 ^ (- e))) 0))
  | _ => if neg then (-0)%float else 0%float
  end.

(** ExponentPart, after the [e] or [E]: an optional sign and digits up to
    the end of the string. *)
Definition exponent_part (s : string) : option Z :=
  let '(neg, s1) :=
    match s with
    | String "+" s' => (false, s')
    | String "-" s' => (true, s')
    | _ => (false, s)
    end in
  match digits 10 0 0 s1 with
  | (v, len, EmptyString) =>
      if 0 <? len then Some (if neg then - v else v) else None
  | _ => None
  end.

(** StrUnsignedDecimalLiteral other than [Infinity]. *)
Definition unsigned_decimal (neg : bool) (s : string) : float :=
  let '(ip, ilen, s1) := digits 10 0 0 s in
  let '(m, flen, s2) :=
    match s1 with
    | String "." s' => digits 10 ip 0 s'
    | _ => (ip, 0, s1)
    end in
  if (ilen =? 0) && (flen =? 0) then NaN
  else
    match s2 with
    | EmptyString => round_decimal neg m (- flen)
    | String c s3 =>
        if (c =? "e")%char || (c =? "E")%char
        then match exponent_part s3 with
             | Some x => round_decimal neg m (x - flen)
             | None => NaN
             end
        else NaN
    end.

Definition signed_decimal (neg : bool) (s : string) : float :=
  if (s =? "Infinity")%string
  then (if neg then neg_infinity else infinity)
  else unsigned_decimal neg s.

(** NonDecimalIntegerLiteral: digits in the given radix up to the end. *)
Definition non_decimal (radix : N) (s : string) : float :=
  match digits radix 0 0 s with
  | (v, len, EmptyString) => if 0 <? len then round_decimal false v 0 else NaN
  | _ => NaN
  end.

(** The radix and the digits of a string that starts with [0x], [0o] or
    [0b], in either case. *)
Definition radix_prefix (s : string) : option (N * string) :=
  match s with
  | String c1 (String c2 r) =>
      if (c1 =? "0")%char
      then if (c2 =? "x")%char || (c2 =? "X")%char then Some (16%N, r)
           else if (c2 =? "o")%char || (c2 =? "O")%char then Some (8%N, r)
           else if (c2 =? "b")%char || (c2 =? "B")%char then Some (2%N, r)
           else None
      else None
  | _ => None
  end.

Definition StringToNumber (s : string) : float :=
  match trim s with
  | EmptyString => 0%float
  | String c r as t =>
      match radix_prefix t with
      | Some (radix, digits) => non_decimal radix digits
      | None =>
          if (c =? "+")%char then signed_decimal false r
          else if (c =? "-")%char then signed_decimal true r
          else signed_decimal false t
      end
  end.

(** ** Conversions and comparisons of primitive values *)

Definition ToNumber (p : prim) : float :=
  match p with
  | PUndefined => NaN
  | PNull => 0%float
  | PBool b => if b then 1%float else 0%float
  | PNum x => x
  | PStr s => StringToNumber s
  end.

Definition ToBoolean (p : prim) : bool :=
  match p with
  | PUndefined | PNull => false
  | PBool b => b
  | PNum x => negb ((x =? 0)%float || is_nan x)
  | PStr s => negb (s =? "")%string
  end.

(** [x === y] *)
Definition strict_eq (x y : prim) : bool :=
  match x, y with
  | PUndefined, PUndefined => true
  | PNull, PNull => true
  | PBool a, PBool b => Bool.eqb a b
  | PNum a, PNum b => (a =? b)%float
  | PStr a, PStr b => (a =? b)%string
  | _, _ => false
  end.

(** [x > y] and [x < y] on numbers *)
Definition gt (x y : float) : bool := (y <? x)%float.
Definition lt (x y : float) : bool := (x <? y)%float.

(** ** Number.prototype.toFixed

    [toFixed x f] prints the integer [n] nearest to [x * 10^f] (the larger
    one when two are equally near) with a point before its last [f]
    digits.  From [10^21] on ECMAScript prints [x] in exponent notation
    instead; the digits printed here denote the same number, and both calls
    in Torrent.js are guarded by [x < 100]. *)

Definition nearest_scaled (m : positive) (e : Z) (f : nat) : Z :=
  let num := Zpos m * 10 ^ Z.of_nat f in
  if 0 <=? e then num * 2 ^ e
  else (2 * num + 2 ^ (- e)) / 2 ^ (- e + 1).

Definition decimal_digits (n : Z) : string :=
  NilZero.string_of_uint (N.to_uint (Z.to_N n)).

Fixpoint zeros (k : nat) : string :=
  match k with
  | O => EmptyString
  | S k' => String "0" (zeros k')
  end.

Definition fixed_point (n : Z) (f : nat) : string :=
  let m := decimal_digits n in
  match f with
  | O => m
  | _ =>
      let k := String.length m in
      let m := (zeros (S f - k) ++ m)%string in
      let k := String.length m in
      (String.substring 0 (k - f) m ++ "." ++ String.substring (k - f) f m)%string
  end.

Definition toFixed (x : float) (f : nat) : string :=
  match Prim2SF x with
  | S754_nan => "NaN"
  | S754_infinity s => if s then "-Infinity" else "Infinity"
  | S754_zero _ => fixed_point 0 f
  | S754_finite s m e =>
      ((if s then "-" else "") ++ fixed_point (nearest_scaled m e f) f)%string
  end.

(** [Number(s)] for a string argument *)
Definition Number (s : string) : float := ToNumber (PStr s).

(** ** String.prototype.indexOf, substr, split; Array.prototype.join, sort *)

Definition indexOf (s pat : string) : Z :=
  match String.index 0 pat s with
  | Some n => Z.of_nat n
  | None => -1
  end.

Definition substr (s : string) (start len : Z) : string :=
  let size := Z.of_nat (String.length s) in
  let intStart := if start <? 0 then Z.max (size + start) 0 else Z.min start size in
  let intLength := Z.min (Z.max len 0) size in
  let intEnd := Z.min (intStart + intLength) size in
  String.substring (Z.to_nat intStart) (Z.to_nat (intEnd - intStart)) s.

(** [split_from sep skip cur s]: [cur] is the token read so far and [skip]
    the number of code units of a separator still to be passed over. *)
Fixpoint split_from (sep : string) (skip : nat) (cur s : string) : list string :=
  match s with
  | EmptyString => [cur]
  | String c s' =>
      match skip with
      | S k => split_from sep k cur s'
      | O =>
          if String.prefix sep s
          then cur :: split_from sep (String.length sep - 1) EmptyString s'
          else split_from sep 0 (cur ++ String c EmptyString)%string s'
      end
  end.

Definition split (s sep : string) : list string :=
  match sep with
  | EmptyString => (fun c => String c EmptyString) <$> list_ascii_of_string s
  | _ => split_from sep 0 EmptyString s
  end.

Arguments split : simpl never.

Definition join (l : list string) (sep : string) : string := String.concat sep l.

(** The order of the default comparator of [sort]: strings are compared
    code unit by code unit, a proper prefix coming first. *)
Definition str_le (a b : string) : Prop := String.leb a b = true.

Global Instance str_le_dec a b : Decision (str_le a b).
Proof. unfold str_le. apply _. Defined.

(** [sort()] on an array of strings.  The comparator is a total order in
    which only identical strings compare equal, so every sorting algorithm
    returns the same array. *)
Definition sort (l : list string) : list string := merge_sort str_le l.

(** [slice(-k)]: the last [k] elements *)
Definition slice_last {A} (l : list A) (k : nat) : list A :=
  drop (List.length l - k)%nat l.

(** [x.length]: the length of a string, [undefined] on a number or a
    boolean, a TypeError on [undefined] and [null]. *)
Definition length_of (p : prim) : completion (option nat) :=
  match p with
  | PUndefined | PNull => Throws TypeError
  | PStr s => Returns (Some (String.length s))
  | _ => Returns None
  end.

Definition truthy_length (n : option nat) : bool :=
  match n with
  | Some (S _) => true
  | _ => false
  end.

(* ===================================================================== *)
(** * Part 2: collaborators                                               *)
(* ===================================================================== *)

(** Modelled from the spec: [shared/constants/torrentStatusMap], the status
    label vocabulary, is not among the sources.  The spec names the tags
    [checking], [seeding], [paused], [complete], [downloading], [stopped],
    [error], [inactive] and [active]; each property holds its own name. *)
Module torrentStatusMap.
Definition checking : value := PStr "checking".
Definition seeding : value := PStr "seeding".
Definition paused : value := PStr "paused".
Definition complete : value := PStr "complete".
Definition downloading : value := PStr "downloading".
Definition stopped : value := PStr "stopped".
Definition error : value := PStr "error".
Definition inactive : value := PStr "inactive".
Definition active : value := PStr "active".
End torrentStatusMap.

(** The raw snapshot: field name to primitive value.  Reading a field
    that is missing gives [undefined]. *)
Abbreviation snapshot := (gmap string prim).

Definition field (clientData : snapshot) (key : string) : prim :=
  default PUndefined (clientData !! key).

(** The names of the functions every ordinary object inherits from
    [Object.prototype]; [constructor] is the function [Object]. *)
Definition Object_prototype_functions : list string := [
  "constructor";
  "__defineGetter__";
  "__defineSetter__";
  "hasOwnProperty";
  "__lookupGetter__";
  "__lookupSetter__";
  "isPrototypeOf";
  "propertyIsEnumerable";
  "toString";
  "valueOf";
  "toLocaleString"
].

(** [clientData[key]] for a name that is computed: an own property of the
    snapshot, or else what [Object.prototype] has under the name, or else
    [undefined].  The snapshot is an ordinary object, written as a literal
    or filled by assignments; such an object has no own property named
    [__proto__] (an assignment to that name calls the setter of
    [Object.prototype] and makes none), so under that name the map is not
    read: the accessor answers with the prototype. *)
Definition property (clientData : snapshot) (key : string) : value :=
  if decide (key = "__proto__") then VObjectPrototype
  else
    match clientData !! key with
    | Some p => VPrim p
    | None =>
        if decide (key ∈ Object_prototype_functions) then VFunction key
        else VPrim PUndefined
    end.

(** Objects of the store, the Torrent instance and the records: finite
    maps from property names to values. *)
Abbreviation object := (gmap string value).

(** What the outside world sees of a run: the warnings written to the
    console and the calls of the notifier, each with the objects as they
    are at the moment of the call. *)
Inductive event : Type :=
| Warn (msg : string)
| CompareNewTorrentData (prev next : loc) (objs : gmap loc object).

Record store : Type := Store {
  objects : gmap loc object;
  events : list event
}.

Definition alloc (o : object) (σ : store) : loc * store :=
  let l := fresh (dom (objects σ)) in
  (l, Store (<[l := o]> (objects σ)) (events σ)).

(** [o[key] = v] on the object at [l] *)
Definition set_prop (l : loc) (key : string) (v : value) (σ : store) : store :=
  Store (alter (insert key v) l (objects σ)) (events σ).

(** [o[key]]; [undefined] when the property is missing *)
Definition get_prop (l : loc) (key : string) (σ : store) : value :=
  default (VPrim PUndefined) (objects σ !! l ≫= (.!! key)).

(** [o[key] = v] for a name that is computed, on an ordinary object.
    Under every name but one this is [set_prop]: what [Object.prototype]
    has under the name of one of its functions is a data property that can
    be written, so the assignment makes an own property.  [__proto__] is an
    accessor: the assignment calls its setter and makes no own property.
    (The setter makes [v] the prototype of the object when [v] is an
    object.  The model does not keep the prototype: of a record only the
    properties [basePath], [status], [tags] and [trackers] are read, which
    no array, no function and no prototype has.) *)
Definition assign (l : loc) (key : string) (v : value) (σ : store) : store :=
  if decide (key = "__proto__") then σ else set_prop l key v σ.

Definition emit (e : event) (σ : store) : store :=
  Store (objects σ) (events σ ++ [e]).

(** [v.key] for a name that no prototype defines: the property of the
    object [v] refers to, [undefined] on an array and on a string, a
    number or a boolean, and a TypeError on [undefined] and [null]. *)
Definition member (v : value) (key : string) (σ : store) : completion value :=
  match v with
  | VRef r => Returns (get_prop r key σ)
  | VPrim PUndefined | VPrim PNull => Throws TypeError
  | VPrim _ | VArr _ | VFunction _ | VObjectPrototype => Returns (VPrim PUndefined)
  end.

(** [v || []]: objects and arrays are truthy. *)
Definition or_empty_array (v : value) : value :=
  match v with
  | VPrim p => if ToBoolean p then v else VArr []
  | VArr _ | VRef _ | VFunction _ | VObjectPrototype => v
  end.

(** The value of the option [requestedData]: a primitive ([undefined] when
    the option is absent) or an array of field names. *)
Inductive requested : Type :=
| ReqPrim (p : prim)
| ReqArray (keys : list string).

Record options : Type := Options {
  currentTime : prim;
  requestedData : requested
}.

(** [{}] as an options object *)
Definition no_options : options := Options PUndefined (ReqPrim PUndefined).

Definition truthy (r : requested) : bool :=
  match r with
  | ReqPrim p => ToBoolean p
  | ReqArray _ => true
  end.

(** [_.isArray] *)
Definition isArray (r : requested) : bool :=
  match r with
  | ReqArray _ => true
  | ReqPrim _ => false
  end.

Definition elements (r : requested) : list string :=
  match r with
  | ReqArray keys => keys
  | ReqPrim _ => []
  end.

(** Modelled from the spec: [stringUtil.capitalize] of
    [shared/util/stringUtil] is not among the sources.  [getClientData]
    builds the name [getStatus] from [status] and [getPercentComplete]
    from [percentComplete] with it: the first letter becomes a capital and
    the rest is left as it is.  The class takes the function as a
    parameter; this one serves in the examples. *)
Definition capitalize_first (s : string) : string :=
  match s with
  | String c rest =>
      let n := code c in
      String (if (97 <=? n)%N && (n <=? 122)%N then ascii_of_N (n - 32) else c) rest
  | EmptyString => EmptyString
  end.

(** What a method of the class may be handed as its argument. *)
Inductive argument : Type :=
| ArgPrim (p : prim)
| ArgSnapshot (clientData : snapshot).

(* ===================================================================== *)
(** * Part 3: the class Torrent                                           *)
(* ===================================================================== *)

Definition DEFAULT_DATA_KEYS : list string := [
  (* Torrent List data *)
  "hash";
  "added";
  "bytesDone";
  "downloadRate";
  "downloadTotal";
  "eta";
  "name";
  "percentComplete";
  "ratio";
  "sizeBytes";
  "status";
  "totalPeers";
  "totalSeeds";
  "uploadTotal";
  "uploadRate";
  "priority";
  "trackers";

  (* Torrent Details data *)
  "creationDate";
  "freeDiskSpace";
  "connectedPeers";
  "connectedSeeds";
  "message";
  "basePath";
  "ignoreScheduler";
  "comment";
  "isPrivate";
  "directory";
  "filename";
  "isMultiFile";
  "tags"
].

Definition push (a : list value) (v : value) : list value := a ++ [v].

Section Torrent.

(** The built-in [decodeURIComponent]: the decoded string, or a URIError
    on a malformed escape sequence. *)
Variable decodeURIComponent : string -> completion string.

(** [formatUtil.secondsToDuration] of [shared/util/formatUtil]: seconds
    to a duration text. *)
Variable secondsToDuration : float -> string.

(** [regEx.domainName.exec] of [shared/util/regEx]: [None] for [null],
    otherwise the match array, a capture group that did not take part
    being [undefined]. *)
Variable domainName_exec : string -> option (list (option string)).

(** [stringUtil.capitalize] of [shared/util/stringUtil]. *)
Variable capitalize : string -> string.

Definition getPeerCount (string : argument) : completion value :=
  match string with
  | ArgPrim (PStr string) =>
      (* This lovely delimiter is defined in clientResponseUtil. *)
      let markerPosition := indexOf string "@!@" in
      Returns (VPrim (PStr (substr string 0 markerPosition)))
  | _ => Throws TypeError  (* no method [indexOf] to call *)
  end.

Definition getEta (clientData : snapshot) : completion value :=
  let rate := field clientData "downloadRate" in
  let completed := field clientData "bytesDone" in
  let total := field clientData "sizeBytes" in
  if gt (ToNumber rate) 0
  then
    let cumSeconds := ((ToNumber total - ToNumber completed) / ToNumber rate)%float in
    Returns (VPrim (PStr (secondsToDuration cumSeconds)))
  else Returns (VPrim (PStr "Infinity")).

Definition getPercentComplete (clientData : snapshot) : completion value :=
  let percentComplete :=
    (ToNumber (field clientData "bytesDone")
     / ToNumber (field clientData "sizeBytes") * 100)%float in
  if gt percentComplete 0 && lt percentComplete 10
  then Returns (VPrim (PNum (Number (toFixed percentComplete 2))))
  else if gt percentComplete 10 && lt percentComplete 100
  then Returns (VPrim (PNum (Number (toFixed percentComplete 1))))
  else Returns (VPrim (PNum percentComplete)).

(** The chain of flag tests of [getStatus] (lines 158-174), from the
    empty array. *)
Definition classify (isHashChecking isComplete isOpen state : prim)
    (torrentStatus : list value) : list value :=
  if strict_eq isHashChecking (PStr "1")
  then push torrentStatus torrentStatusMap.checking
  else if strict_eq isComplete (PStr "1") && strict_eq isOpen (PStr "1")
          && strict_eq state (PStr "1")
  then push (push torrentStatus torrentStatusMap.complete) torrentStatusMap.seeding
  else if strict_eq isComplete (PStr "1") && strict_eq isOpen (PStr "1")
          && strict_eq state (PStr "0")
  then push torrentStatus torrentStatusMap.paused
  else if strict_eq isComplete (PStr "1") && strict_eq isOpen (PStr "0")
  then push (push torrentStatus torrentStatusMap.stopped) torrentStatusMap.complete
  else if strict_eq isComplete (PStr "0") && strict_eq isOpen (PStr "1")
          && strict_eq state (PStr "1")
  then push torrentStatus torrentStatusMap.downloading
  else if strict_eq isComplete (PStr "0") && strict_eq isOpen (PStr "1")
          && strict_eq state (PStr "0")
  then push torrentStatus torrentStatusMap.paused
  else if strict_eq isComplete (PStr "0") && strict_eq isOpen (PStr "0")
  then push torrentStatus torrentStatusMap.stopped
  else torrentStatus.

Definition getStatus (clientData : snapshot) : completion value :=
  let isHashChecking := field clientData "isHashChecking" in
  let isComplete := field clientData "isComplete" in
  let isOpen := field clientData "isOpen" in
  let uploadRate := field clientData "uploadRate" in
  let downloadRate := field clientData "downloadRate" in
  let state := field clientData "state" in
  let message := field clientData "message" in

  let torrentStatus := [] in

  let torrentStatus := classify isHashChecking isComplete isOpen state torrentStatus in

  length ← length_of message;
  let torrentStatus :=
    if truthy_length length
    then push torrentStatus torrentStatusMap.error
    else torrentStatus in

  let torrentStatus :=
    if strict_eq uploadRate (PStr "0") && strict_eq downloadRate (PStr "0")
    then push torrentStatus torrentStatusMap.inactive
    else push torrentStatus torrentStatusMap.active in

  Returns (VArr torrentStatus).

Definition getTags (clientData : snapshot) : completion value :=
  let tags := field clientData "tags" in
  if strict_eq tags (PStr "")
  then Returns (VArr [])
  else
    match tags with
    | PStr tags =>
        decoded ← mapM (fun tag => decodeURIComponent tag) (sort (split tags ","));
        Returns (VArr ((fun tag => VPrim (PStr tag)) <$> decoded))
    | _ => Throws TypeError  (* no method [split] to call *)
    end.

Definition getTotalPeers (clientData : snapshot) : completion value :=
  getPeerCount (ArgPrim (field clientData "totalPeers")).

Definition getTotalSeeds (clientData : snapshot) : completion value :=
  getPeerCount (ArgPrim (field clientData "totalSeeds")).

(** The body of the [forEach] callback of [getTrackers]. *)
Definition trackerDomain (trackerDomains : list value) (tracker : string)
    : completion (list value) :=
  let domain := domainName_exec tracker in
  match domain with
  | Some groups =>
      match groups !! 1%nat with
      | Some (Some domain) =>
          if negb (domain =? "")%string
          then
            let domainSubsets := split domain "." in
            let desiredSubsets := 2%nat in
            let subsetMinLength := 3%nat in
            desiredSubsets ←
              (if (desiredSubsets <? List.length domainSubsets)%nat
               then
                 match domainSubsets !! (List.length domainSubsets - desiredSubsets)%nat with
                 | Some lastDesiredSubset =>
                     if (String.length lastDesiredSubset <=? 3)%nat
                     then Returns (S desiredSubsets)
                     else Returns desiredSubsets
                 | None => Throws TypeError  (* [undefined.length] *)
                 end
               else Returns desiredSubsets);
            let domain := join (slice_last domainSubsets desiredSubsets) "." in
            Returns (push trackerDomains (VPrim (PStr domain)))
          else Returns trackerDomains
      | _ => Returns trackerDomains
      end
  | None => Returns trackerDomains
  end.

Fixpoint forEach_tracker (trackers : list string) (trackerDomains : list value)
    : completion (list value) :=
  match trackers with
  | [] => Returns trackerDomains
  | tracker :: rest =>
      trackerDomains ← trackerDomain trackerDomains tracker;
      forEach_tracker rest trackerDomains
  end.

Definition getTrackers (clientData : snapshot) : completion value :=
  match field clientData "trackers" with
  | PStr raw =>
      (* This lovely delimiter is defined in clientResponseUtil. *)
      let trackers := split raw "@!@" in
      let trackerDomains := [] in
      trackerDomains ← forEach_tracker trackers trackerDomains;
      Returns (VArr trackerDomains)
  | _ => Throws TypeError  (* no method [split] to call *)
  end.

Definition cleanUpDate (dirtyDate : prim) : completion value :=
  if negb (ToBoolean dirtyDate)
  then Returns (VPrim (PStr ""))
  else
    match dirtyDate with
    | PStr dirtyDate =>
        let date := trim dirtyDate in
        if strict_eq (PStr date) (PStr "0")
        then Returns (VPrim (PStr ""))
        else Returns (VPrim (PStr date))
    | _ => Throws TypeError  (* no method [trim] to call *)
    end.

Definition getAdded (clientData : snapshot) : completion value :=
  cleanUpDate (field clientData "added").

Definition getCreationDate (clientData : snapshot) : completion value :=
  cleanUpDate (field clientData "creationDate").

(** [this[fnName]] when it is a function: the methods of the class whose
    name starts with [get].  Each is called with the snapshot alone, so
    [getClientData] finds its [opts] undefined and raises at line 86
    before it has done anything that can be seen, and [getPeerCount]
    finds an object where it expects a string. *)
Definition method (fnName : string) : option (snapshot -> completion value) :=
  if decide (fnName = "getClientData") then Some (fun _ => Throws TypeError)
  else if decide (fnName = "getPeerCount")
  then Some (fun clientData => getPeerCount (ArgSnapshot clientData))
  else if decide (fnName = "getEta") then Some getEta
  else if decide (fnName = "getPercentComplete") then Some getPercentComplete
  else if decide (fnName = "getStatus") then Some getStatus
  else if decide (fnName = "getTags") then Some getTags
  else if decide (fnName = "getTotalPeers") then Some getTotalPeers
  else if decide (fnName = "getTotalSeeds") then Some getTotalSeeds
  else if decide (fnName = "getTrackers") then Some getTrackers
  else if decide (fnName = "getAdded") then Some getAdded
  else if decide (fnName = "getCreationDate") then Some getCreationDate
  else None.

(** The getter [data]: [Object.assign({}, this.torrentData)], a new
    object with the properties of the current record, or with none when
    [torrentData] is not assigned yet. *)
Definition data (this : loc) (σ : store) : loc * store :=
  let source :=
    match get_prop this "torrentData" σ with
    | VRef r => default ∅ (objects σ !! r)
    | _ => ∅
    end in
  alloc source σ.

(** The getters [basePath], [status], [tags] and [trackers]: a property of
    the current record, the last three with [[]] in the place of a falsy
    value. *)
Definition basePath (this : loc) (σ : store) : completion value :=
  member (get_prop this "torrentData" σ) "basePath" σ.

Definition status (this : loc) (σ : store) : completion value :=
  status ← member (get_prop this "torrentData" σ) "status" σ;
  Returns (or_empty_array status).

Definition tags (this : loc) (σ : store) : completion value :=
  tags ← member (get_prop this "torrentData" σ) "tags" σ;
  Returns (or_empty_array tags).

Definition trackers (this : loc) (σ : store) : completion value :=
  trackers ← member (get_prop this "torrentData" σ) "trackers" σ;
  Returns (or_empty_array trackers).

(** The body of the [forEach] callback of [getClientData]. *)
Definition processKey (clientData : snapshot) (torrentData : loc)
    (key : string) (σ : store) : completion unit * store :=
  (* TODO: Use setters instead of constructing this transformation method. *)
  let fnName := ("get" ++ capitalize key)%string in
  let keyData :=
    (* Some data needs transformation, so we check if there's a
       transformation method on the Torrent class first.  If not, we
       assume no transformation. *)
    match method fnName with
    | Some fn => fn clientData
    | None => Returns (property clientData key)
    end in
  match keyData with
  | Returns keyData => (Returns (), assign torrentData key keyData σ)
  | Throws e => (Throws e, σ)
  end.

Fixpoint forEach_key (clientData : snapshot) (torrentData : loc)
    (keysToProcess : list string) (σ : store) : completion unit * store :=
  match keysToProcess with
  | [] => (Returns (), σ)
  | key :: rest =>
      match processKey clientData torrentData key σ with
      | (Returns _, σ) => forEach_key clientData torrentData rest σ
      | (Throws e, σ) => (Throws e, σ)
      end
  end.

Definition warning : string :=
  "Torrent: requestedData mut be an array, using defaults.".

Definition getClientData (this : loc) (clientData : snapshot)
    (opts : option options) (σ : store) : completion loc * store :=
  let keysToProcess := DEFAULT_DATA_KEYS in
  let '(torrentData, σ) := alloc ∅ σ in
  match opts with
  | None => (Throws TypeError, σ)  (* [opts.requestedData] *)
  | Some opts =>
      (* If specific data keys were requested, use them.  Otherwise, use
         defaults. *)
      let '(keysToProcess, σ) :=
        if truthy (requestedData opts) && isArray (requestedData opts)
        then (elements (requestedData opts), σ)
        else if truthy (requestedData opts)
        then (keysToProcess, emit (Warn warning) σ)
        else (keysToProcess, σ) in
      match forEach_key clientData torrentData keysToProcess σ with
      | (Throws e, σ) => (Throws e, σ)
      | (Returns _, σ) =>
          let '(previous, σ) := data this σ in
          let σ := emit (CompareNewTorrentData previous torrentData (objects σ)) σ in
          (Returns torrentData, σ)
      end
  end.

(** [opts.currentTime || Date.now()], [now] being what the clock reads *)
Definition timestamp (opts : options) (now : float) : value :=
  if ToBoolean (currentTime opts) then VPrim (currentTime opts)
  else VPrim (PNum now).

(** [new Torrent(clientData, opts)]; a missing argument is [None]. *)
Definition constructor (clientData : option snapshot) (opts : option options)
    (now : float) (σ : store) : completion loc * store :=
  let '(this, σ) := alloc ∅ σ in
  match clientData with
  | None => (Returns this, σ)
  | Some clientData =>
      let opts := default no_options opts in
      let σ := set_prop this "lastUpdated" (timestamp opts now) σ in
      match getClientData this clientData (Some opts) σ with
      | (Returns torrentData, σ) =>
          (Returns this, set_prop this "torrentData" (VRef torrentData) σ)
      | (Throws e, σ) => (Throws e, σ)
      end
  end.

Definition updateData (this : loc) (clientData : snapshot)
    (opts : option options) (now : float) (σ : store) : completion unit * store :=
  match opts with
  | None => (Throws TypeError, σ)  (* [opts.currentTime] *)
  | Some o =>
      (* TODO: Communicate to TorrentCollection which props changed. *)
      let σ := set_prop this "lastUpdated" (timestamp o now) σ in
      match getClientData this clientData opts σ with
      | (Returns torrentData, σ) =>
          (Returns (), set_prop this "torrentData" (VRef torrentData) σ)
      | (Throws e, σ) => (Throws e, σ)
      end
  end.

End Torrent.

(* ===================================================================== *)
(** * Part 4: the notions of the specification, and data for examples     *)
(* ===================================================================== *)

(** ** Numerals

    What the proofs about [toFixed] and [Number] speak of: strings of
    digits and their values. *)

Definition is_digit (c : ascii) : bool :=
  match digit_of 10 c with Some _ => true | None => false end.

Fixpoint all_digits (s : string) : bool :=
  match s with
  | EmptyString => true
  | String c r => is_digit c && all_digits r
  end.

(** The value of a string of digits read from the left, after [acc]. *)
Fixpoint dec_value (acc : Z) (s : string) : Z :=
  match s with
  | EmptyString => acc
  | String c r =>
      match digit_of 10 c with
      | Some d => dec_value (acc * 10 + d) r
      | None => acc
      end
  end.

Definition no_digit_ahead (s : string) : Prop :=
  match s with
  | EmptyString => True
  | String c _ => is_digit c = false
  end.

(** The digits of a decimal numeral, read from the left after [acc]. *)
Fixpoint uint_value (acc : N) (d : Decimal.uint) : N :=
  match d with
  | Decimal.Nil => acc
  | Decimal.D0 d => uint_value (acc * 10 + 0) d
  | Decimal.D1 d => uint_value (acc * 10 + 1) d
  | Decimal.D2 d => uint_value (acc * 10 + 2) d
  | Decimal.D3 d => uint_value (acc * 10 + 3) d
  | Decimal.D4 d => uint_value (acc * 10 + 4) d
  | Decimal.D5 d => uint_value (acc * 10 + 5) d
  | Decimal.D6 d => uint_value (acc * 10 + 6) d
  | Decimal.D7 d => uint_value (acc * 10 + 7) d
  | Decimal.D8 d => uint_value (acc * 10 + 8) d
  | Decimal.D9 d => uint_value (acc * 10 + 9) d
  end%N.

Fixpoint no_white (s : string) : bool :=
  match s with
  | EmptyString => true
  | String c r => negb (is_white c) && no_white r
  end.

(** A string that starts with a digit followed, if by anything, by a digit
    or a point is read as a decimal literal without a sign. *)
Definition decimal_head (s : string) : bool :=
  match s with
  | String c1 r =>
      is_digit c1 &&
      match r with
      | String c2 _ => is_digit c2 || (c2 =? ".")%char
      | EmptyString => true
      end
  | EmptyString => false
  end.

(** [n] is the integer nearest to [m * 2^e * 10^d], the larger one when
    two are equally near: [n - 1/2 <= m * 2^e * 10^d < n + 1/2], written
    without fractions. *)
Definition nearest_integer (m : positive) (e : Z) (d : nat) (n : Z) : Prop :=
  (2 * n - 1) * 2 ^ Z.max 0 (- e)
  <= 2 * (Zpos m * 10 ^ Z.of_nat d) * 2 ^ Z.max 0 e
  < (2 * n + 1) * 2 ^ Z.max 0 (- e).

(** The integer [n] as a number; exact below [2^53]. *)
Definition integer (n : Z) : float := PrimFloat.of_uint63 (Uint63.of_Z n).

(** Whether reading [k] with a point before its last [d] digits gives the
    quotient of [k] by [divisor]. *)
Definition quotients_agree (d : Z) (divisor : float) (k : nat) : bool :=
  Leibniz.eqb (round_decimal false (Z.of_nat k) (- d))
    (integer (Z.of_nat k) / divisor)%float.

(** Rounding to [d] decimal places, in the words of the specification, of
    the positive number [m * 2^e]: the number nearest to [n / 10^d], [n]
    being the integer nearest to [m * 2^e * 10^d] (the larger one when two
    are equally near). *)
Definition rounded (m : positive) (e : Z) (d : nat) : float :=
  round_decimal false (nearest_scaled m e d) (- Z.of_nat d).

(** ** The status, the trackers, the peers *)

(** The primary classification in the words of the specification: the
    cases are tried in this order and the first that matches gives the
    tags; no case, no tag. *)
Definition first_match (isHashChecking isComplete isOpen state : prim)
    (tags : list value) : Prop :=
  let one := PStr "1" in
  let zero := PStr "0" in
  (isHashChecking = one -> tags = [torrentStatusMap.checking]) /\
  (isHashChecking <> one ->
   (isComplete = one -> isOpen = one -> state = one ->
    tags = [torrentStatusMap.complete; torrentStatusMap.seeding]) /\
   (isComplete = one -> isOpen = one -> state = zero ->
    tags = [torrentStatusMap.paused]) /\
   (isComplete = one -> isOpen = zero ->
    tags = [torrentStatusMap.stopped; torrentStatusMap.complete]) /\
   (isComplete = zero -> isOpen = one -> state = one ->
    tags = [torrentStatusMap.downloading]) /\
   (isComplete = zero -> isOpen = one -> state = zero ->
    tags = [torrentStatusMap.paused]) /\
   (isComplete = zero -> isOpen = zero ->
    tags = [torrentStatusMap.stopped]) /\
   (~ (isComplete = one /\ isOpen = one /\ (state = one \/ state = zero)) ->
    ~ (isComplete = one /\ isOpen = zero) ->
    ~ (isComplete = zero /\ isOpen = one /\ (state = one \/ state = zero)) ->
    ~ (isComplete = zero /\ isOpen = zero) ->
    tags = [])).

(** The tags appended after the classification. *)
Definition secondary (tag : value) : Prop :=
  tag = torrentStatusMap.error \/ tag = torrentStatusMap.inactive
  \/ tag = torrentStatusMap.active.

(** The activity tag: [inactive] when both rates are the string 0. *)
Definition activity (uploadRate downloadRate : prim) : value :=
  if strict_eq uploadRate (PStr "0") && strict_eq downloadRate (PStr "0")
  then torrentStatusMap.inactive
  else torrentStatusMap.active.

(** A tag other than the two activity tags. *)
Definition not_activity (tag : value) : Prop :=
  tag <> torrentStatusMap.inactive /\ tag <> torrentStatusMap.active.

(** A snapshot of a torrent that is complete and closed. *)
Definition stopped_snapshot : snapshot :=
  {[ "isHashChecking" := PStr "0"; "isComplete" := PStr "1";
     "isOpen" := PStr "0"; "state" := PStr "0";
     "uploadRate" := PStr "0"; "downloadRate" := PStr "0";
     "message" := PStr "" ]}.

(** A snapshot that has the hash-checking flag and nothing else. *)
Definition checking_snapshot : snapshot :=
  {[ "isHashChecking" := PStr "1" ]}.

(** The delimiter of [clientResponseUtil]. *)
Definition delimiter : string := "@!@".

(** [sep] occurs in [s]. *)
Definition occurs (sep s : string) : Prop :=
  exists a b, s = (a ++ sep ++ b)%string.

(** A snapshot that reports the bytes done and the size, and nothing else. *)
Definition progress (bytesDone sizeBytes : string) : snapshot :=
  {[ "bytesDone" := PStr bytesDone; "sizeBytes" := PStr sizeBytes ]}.

(** The hostname the pattern captures in a tracker entry, if any: the
    first capture group, when the pattern matches and the group is not
    empty. *)
Definition hostname (domainName_exec : string -> option (list (option string)))
    (tracker : string) : option string :=
  match domainName_exec tracker with
  | Some groups =>
      match groups !! 1%nat with
      | Some (Some host) => if (host =? "")%string then None else Some host
      | _ => None
      end
  | None => None
  end.

(** The number of labels to keep, in the words of the specification: two,
    and three when there are more than two labels and the label at
    position [length - 2] has at most three characters. *)
Definition kept (labels : list string) : nat :=
  match labels !! (List.length labels - 2)%nat with
  | Some label =>
      if (2 <? List.length labels)%nat && (String.length label <=? 3)%nat
      then 3%nat else 2%nat
  | None => 2%nat
  end.

(** The domain kept of a hostname: its last [kept] labels. *)
Definition registrable (host : string) : string :=
  join (slice_last (split host ".") (kept (split host "."))) ".".



(** The snapshot in which every field is missing. *)
Definition empty_snapshot : snapshot := ∅.

(** The resolved field list, in the words of the specification: the
    requested list when one is given as an array, the default list
    otherwise. *)
Definition resolved (opts : options) : list string :=
  match requestedData opts with
  | ReqArray keys => keys
  | ReqPrim _ => DEFAULT_DATA_KEYS
  end.

(** A warning is written when [requestedData] is truthy and not an array. *)
Definition warned (opts : options) : bool :=
  match requestedData opts with
  | ReqArray _ => false
  | ReqPrim p => ToBoolean p
  end.

(** The record a [data] getter copies: the one [this.torrentData] refers
    to, or nothing. *)
Definition current_record (this : loc) (objs : gmap loc object) : object :=
  match get_prop this "torrentData" (Store objs []) with
  | VRef r => default ∅ (objs !! r)
  | _ => ∅
  end.

(** Options whose [requestedData] is present, is not an array, and is
    falsy: the empty string. *)
Definition requested_empty_string : options := Options PUndefined (ReqPrim (PStr "")).

(** Options whose [requestedData] is a single field name instead of a
    list. *)
Definition requested_single_string : options := Options PUndefined (ReqPrim (PStr "hash")).

(** Options that request a field and the name [__proto__]. *)
Definition proto_requested : options :=
  Options PUndefined (ReqArray ["hash"; "__proto__"]).

(** The store before anything is allocated or logged. *)
Definition empty_store : store := Store ∅ [].

(** A construction followed by an update, on the fields [hash] and
    [status] alone, so that none of the three collaborators is called. *)
Definition first_snapshot : snapshot :=
  {[ "hash" := PStr "c0ffee"; "isHashChecking" := PStr "0"; "isComplete" := PStr "0";
     "isOpen" := PStr "1"; "state" := PStr "1"; "uploadRate" := PStr "0";
     "downloadRate" := PStr "512"; "message" := PStr "" ]}.

Definition second_snapshot : snapshot :=
  <["isComplete" := PStr "1"]> (<["downloadRate" := PStr "0"]> first_snapshot).

Definition hash_and_status : options :=
  Options (PNum 1) (ReqArray ["hash"; "status"]).

Definition run_constructor : completion loc * store :=
  constructor (fun _ => Throws URIError) (fun _ => "") (fun _ => None) capitalize_first
    (Some first_snapshot) (Some hash_and_status) 0 empty_store.

Definition run_updateData : completion unit * store :=
  updateData (fun _ => Throws URIError) (fun _ => "") (fun _ => None) capitalize_first
    0%nat second_snapshot (Some hash_and_status) 0 run_constructor.2.

Section Fields.

Variable decodeURIComponent : string -> completion string.
Variable secondsToDuration : float -> string.
Variable domainName_exec : string -> option (list (option string)).
Variable capitalize : string -> string.

(** The value computed for a field: by the deriver of that name when the
    class has one, and otherwise what the snapshot has under the name. *)
Definition derive (clientData : snapshot) (key : string) : completion value :=
  match method decodeURIComponent secondsToDuration domainName_exec
          ("get" ++ capitalize key)%string with
  | Some fn => fn clientData
  | None => Returns (property clientData key)
  end.

(** The record after the assignment of [keyData] under [key]. *)
Definition assigned (key : string) (keyData : value) (record : object) : object :=
  if decide (key = "__proto__") then record else <[key := keyData]> record.

(** The loop over the keys, on the record alone: the record as it stands
    when the loop ends or is left by an exception. *)
Fixpoint build (clientData : snapshot) (keys : list string) (record : object)
    : completion unit * object :=
  match keys with
  | [] => (Returns (), record)
  | key :: rest =>
      match derive clientData key with
      | Returns keyData => build clientData rest (assigned key keyData record)
      | Throws e => (Throws e, record)
      end
  end.

End Fields.

(** ** Notions for the properties of the dates, the tags and the store *)

(** A string that does not start with white space, and one that does not
    end with it. *)
Definition starts_black (s : string) : Prop :=
  match s with
  | String c _ => is_white c = false
  | EmptyString => True
  end.

Fixpoint ends_black (s : string) : Prop :=
  match s with
  | EmptyString => True
  | String c EmptyString => is_white c = false
  | String _ r => ends_black r
  end.

(** The number of code units of [s] that are [c]. *)
Fixpoint occurrences (c : ascii) (s : string) : nat :=
  match s with
  | EmptyString => 0%nat
  | String d r => ((if Ascii.eqb c d then 1 else 0) + occurrences c r)%nat
  end.

(** The number of calls of the notifier in a log, and of warnings. *)
Fixpoint notifications (log : list event) : nat :=
  match log with
  | [] => 0%nat
  | CompareNewTorrentData _ _ _ :: rest => S (notifications rest)
  | Warn _ :: rest => notifications rest
  end.

Fixpoint warnings (log : list event) : nat :=
  match log with
  | [] => 0%nat
  | Warn _ :: rest => S (warnings rest)
  | CompareNewTorrentData _ _ _ :: rest => warnings rest
  end.

Section Recorded.

Variable decodeURIComponent : string -> completion string.
Variable secondsToDuration : float -> string.
Variable domainName_exec : string -> option (list (option string)).
Variable capitalize : string -> string.

(** The own property [key] of a record built from [clientData] for the
    list [keys]: the derived value when the key is in the list and is not
    [__proto__], and [undefined] when the record has no such property. *)
Definition recorded (clientData : snapshot) (keys : list string) (key : string) : value :=
  if decide (key ∈ keys /\ key <> "__proto__")
  then match derive decodeURIComponent secondsToDuration domainName_exec capitalize
               clientData key with
       | Returns keyData => keyData
       | Throws _ => VPrim PUndefined
       end
  else VPrim PUndefined.

End Recorded.

(** The snapshot of the stopped torrent, with a message of the tracker. *)
Definition failed_snapshot : snapshot :=
  <["message" := PStr "Tracker: [Failure reason]"]> stopped_snapshot.

(** Options that request a field whose name, capitalized, is the name of a
    method of the class that is no deriver. *)
Definition peer_count_requested : options :=
  Options PUndefined (ReqArray ["hash"; "peerCount"]).

(** An update of the torrent of [run_constructor] from a snapshot without
    a message, which [getStatus] cannot read, with a [currentTime] of 0 and
    a clock that reads 7. *)
Definition status_at_zero : options := Options (PNum 0) (ReqArray ["status"]).

Definition run_failed_update : completion unit * store :=
  updateData (fun _ => Throws URIError) (fun _ => "") (fun _ => None) capitalize_first
    0%nat empty_snapshot (Some status_at_zero) 7 run_constructor.2.

(* ===================================================================== *)
(** * Part 5: properties                                                  *)
(* ===================================================================== *)

(** ** Primitive values *)

Lemma strict_eq_str p s : strict_eq p (PStr s) = true <-> p = PStr s.
Proof.
  destruct p; simpl; try (split; [discriminate | discriminate]).
  rewrite String.eqb_eq. split; congruence.
Qed.

Lemma strict_eq_reflect p s : reflect (p = PStr s) (strict_eq p (PStr s)).
Proof.
  destruct (strict_eq p (PStr s)) eqn:E; constructor.
  - by apply strict_eq_str.
  - intros H. apply strict_eq_str in H. congruence.
Qed.

Lemma field_insert (clientData : snapshot) key p :
  field (<[key := p]> clientData) key = p.
Proof. unfold field. by rewrite lookup_insert_eq. Qed.

Lemma field_empty key : field ∅ key = PUndefined.
Proof. unfold field. by rewrite lookup_empty. Qed.

(** ** getStatus *)

Lemma classify_first_match isHashChecking isComplete isOpen state :
  first_match isHashChecking isComplete isOpen state
    (classify isHashChecking isComplete isOpen state []).
Proof.
  unfold first_match, classify, push.
  destruct (strict_eq_reflect isHashChecking "1");
    destruct (strict_eq_reflect isComplete "1");
    destruct (strict_eq_reflect isComplete "0");
    destruct (strict_eq_reflect isOpen "1");
    destruct (strict_eq_reflect isOpen "0");
    destruct (strict_eq_reflect state "1");
    destruct (strict_eq_reflect state "0");
    simpl; repeat split; intros; subst; try congruence; tauto.
Qed.

(** [getStatus] in one equation: it raises when [message] has no
    properties to read, and otherwise returns the classification, then
    [error] when the message is not empty, then the activity tag. *)
Lemma getStatus_unfold clientData :
  getStatus clientData =
  match field clientData "message" with
  | PUndefined | PNull => Throws TypeError
  | message =>
      Returns (VArr
        (classify (field clientData "isHashChecking") (field clientData "isComplete")
           (field clientData "isOpen") (field clientData "state") []
         ++ match message with
            | PStr (String _ _) => [torrentStatusMap.error]
            | _ => []
            end
         ++ [activity (field clientData "uploadRate") (field clientData "downloadRate")]))
  end.
Proof.
  unfold getStatus, activity, push.
  destruct (field clientData "message") as [| | b | x | [|c m]]; simpl; try reflexivity;
    destruct (strict_eq _ _ && strict_eq _ _); simpl;
    rewrite <- ?app_assoc; reflexivity.
Qed.

Lemma classify_not_activity isHashChecking isComplete isOpen state :
  Forall not_activity (classify isHashChecking isComplete isOpen state []).
Proof.
  unfold classify, push.
  repeat match goal with
         | |- context [if ?b then _ else _] => destruct b
         end; simpl; repeat constructor; discriminate.
Qed.

(** C1, as stated, fails: on a snapshot that has no [message] the flag
    tests run, but the call raises a TypeError at [message.length] and no
    tag list is produced. *)
Lemma getStatus_without_message :
  field checking_snapshot "isHashChecking" = PStr "1" /\
  getStatus checking_snapshot = Throws TypeError /\
  ~ (exists tags, getStatus checking_snapshot = Returns tags).
Proof.
  split; [reflexivity |].
  assert (E : getStatus checking_snapshot = Throws TypeError) by reflexivity.
  split; [exact E |]. rewrite E. intros [tags H]. discriminate.
Qed.

(** C1 (amended): for every raw snapshot whose [message] is neither
    [undefined] nor [null], [getStatus] returns a list that starts with the
    primary tags of the first matching case, in the order of the
    specification ([checking]; [complete], [seeding]; [paused]; [stopped],
    [complete]; [downloading]; [paused]; [stopped]; none when no case
    matches), followed only by [error] and the activity tag. *)
Theorem getStatus_primary_tags (clientData : snapshot) :
  field clientData "message" <> PUndefined ->
  field clientData "message" <> PNull ->
  exists primary rest,
    first_match (field clientData "isHashChecking") (field clientData "isComplete")
      (field clientData "isOpen") (field clientData "state") primary /\
    getStatus clientData = Returns (VArr (primary ++ rest)) /\
    Forall secondary rest.
Proof.
  intros Hu Hn.
  exists (classify (field clientData "isHashChecking") (field clientData "isComplete")
            (field clientData "isOpen") (field clientData "state") []).
  rewrite getStatus_unfold.
  destruct (field clientData "message") as [| | b | x | [|c m]]; try congruence;
    eexists; (split; [apply classify_first_match |]);
    (split; [reflexivity |]);
    unfold activity; destruct (strict_eq _ _ && strict_eq _ _); simpl;
    repeat (apply List.Forall_cons; [unfold secondary; auto |]);
    apply List.Forall_nil.
Qed.

Lemma getStatus_primary_tags_witness :
  field stopped_snapshot "message" <> PUndefined /\
  field stopped_snapshot "message" <> PNull /\
  exists primary rest,
    first_match (PStr "0") (PStr "1") (PStr "0") (PStr "0") primary /\
    getStatus stopped_snapshot = Returns (VArr (primary ++ rest)) /\
    Forall secondary rest.
Proof.
  assert (Hu : field stopped_snapshot "message" <> PUndefined)
    by (vm_compute; discriminate).
  assert (Hn : field stopped_snapshot "message" <> PNull)
    by (vm_compute; discriminate).
  split; [exact Hu |]. split; [exact Hn |].
  exact (getStatus_primary_tags stopped_snapshot Hu Hn).
Defined.

(** The case of the example, evaluated: [stopped] precedes [complete]. *)
Example getStatus_stopped_snapshot :
  getStatus stopped_snapshot =
  Returns (VArr [torrentStatusMap.stopped; torrentStatusMap.complete;
                 torrentStatusMap.inactive]).
Proof. reflexivity. Qed.

(** C2: whenever [getStatus] returns, the list ends with one activity
    tag, [inactive] when [uploadRate] and [downloadRate] are both the
    string 0 and [active] otherwise, and holds no other activity tag; in
    particular it is never empty. *)
Theorem getStatus_activity_tag (clientData : snapshot) (status : value) :
  getStatus clientData = Returns status ->
  exists front tag,
    status = VArr (front ++ [tag]) /\
    Forall not_activity front /\
    (field clientData "uploadRate" = PStr "0" /\
     field clientData "downloadRate" = PStr "0" ->
     tag = torrentStatusMap.inactive) /\
    (~ (field clientData "uploadRate" = PStr "0" /\
        field clientData "downloadRate" = PStr "0") ->
     tag = torrentStatusMap.active) /\
    (front ++ [tag])%list <> [].
Proof.
  rewrite getStatus_unfold. intros H.
  assert (Hact :
    (field clientData "uploadRate" = PStr "0" /\
     field clientData "downloadRate" = PStr "0" ->
     activity (field clientData "uploadRate") (field clientData "downloadRate")
     = torrentStatusMap.inactive) /\
    (~ (field clientData "uploadRate" = PStr "0" /\
        field clientData "downloadRate" = PStr "0") ->
     activity (field clientData "uploadRate") (field clientData "downloadRate")
     = torrentStatusMap.active)).
  { unfold activity.
    destruct (strict_eq_reflect (field clientData "uploadRate") "0");
      destruct (strict_eq_reflect (field clientData "downloadRate") "0");
      simpl; split; intros; try reflexivity; tauto. }
  destruct Hact as [Hin Hac].
  pose proof (classify_not_activity (field clientData "isHashChecking")
                (field clientData "isComplete") (field clientData "isOpen")
                (field clientData "state")) as Hc.
  set (err := match field clientData "message" with
              | PStr (String _ _) => [torrentStatusMap.error]
              | _ => []
              end) in H.
  assert (Herr : Forall not_activity err).
  { subst err. destruct (field clientData "message") as [| | b | x | [|c m]];
      repeat constructor; discriminate. }
  exists (classify (field clientData "isHashChecking") (field clientData "isComplete")
            (field clientData "isOpen") (field clientData "state") [] ++ err)%list,
         (activity (field clientData "uploadRate") (field clientData "downloadRate")).
  split.
  { destruct (field clientData "message"); try discriminate;
      injection H as <-; by rewrite <- app_assoc. }
  split; [by apply Forall_app |].
  split; [exact Hin |]. split; [exact Hac |].
  intros E. apply app_eq_nil in E. destruct E. discriminate.
Qed.

Lemma getStatus_activity_tag_witness :
  exists front tag,
    VArr [torrentStatusMap.stopped; torrentStatusMap.complete;
          torrentStatusMap.inactive] = VArr (front ++ [tag]) /\
    Forall not_activity front /\
    (field stopped_snapshot "uploadRate" = PStr "0" /\
     field stopped_snapshot "downloadRate" = PStr "0" ->
     tag = torrentStatusMap.inactive) /\
    (~ (field stopped_snapshot "uploadRate" = PStr "0" /\
        field stopped_snapshot "downloadRate" = PStr "0") ->
     tag = torrentStatusMap.active) /\
    (front ++ [tag])%list <> [].
Proof.
  apply (getStatus_activity_tag stopped_snapshot). reflexivity.
Defined.

(** ** getPeerCount *)

Lemma append_empty_l s : ("" ++ s)%string = s.
Proof. reflexivity. Qed.

Lemma append_String c s t : (String c s ++ t)%string = String c (s ++ t).
Proof. reflexivity. Qed.

Lemma substring_0_0 s : String.substring 0 0 s = "".
Proof. by destruct s. Qed.

Lemma substring_prefix_app p post :
  String.substring 0 (String.length p) (p ++ post) = p.
Proof.
  induction p as [|c p IH]; rewrite ?append_empty_l, ?append_String; simpl;
    [apply substring_0_0 | by rewrite IH].
Qed.

Lemma substring_app_middle pre p post :
  String.substring (String.length pre) (String.length p) (pre ++ p ++ post) = p.
Proof.
  induction pre as [|c pre IH]; rewrite ?append_empty_l, ?append_String; simpl;
    [apply substring_prefix_app | exact IH].
Qed.

Lemma substring_0_prefix p s :
  String.substring 0 (String.length p) s = p -> exists post, s = (p ++ post)%string.
Proof.
  revert s. induction p as [|c p IH]; intros s H; simpl in *.
  - by exists s.
  - destruct s as [|d s]; [discriminate |]. injection H as -> H.
    destruct (IH _ H) as [post ->]. by exists post.
Qed.

Lemma substring_occurrence m p s :
  p <> "" ->
  String.substring m (String.length p) s = p ->
  exists post,
    s = (String.substring 0 m s ++ p ++ post)%string /\
    String.length (String.substring 0 m s) = m.
Proof.
  intros Hp. revert s. induction m as [|m IH]; intros s H.
  - destruct (substring_0_prefix _ _ H) as [post ->].
    exists post. by rewrite substring_0_0.
  - destruct s as [|c s]; simpl in H.
    + destruct p; [congruence | discriminate].
    + destruct (IH _ H) as (post & Hs & Hl). exists post. simpl.
      rewrite append_String.
      split; [by rewrite <- Hs | simpl; by rewrite Hl].
Qed.

Lemma substr_0_nat s (m : nat) :
  (m <= String.length s)%nat -> substr s 0 (Z.of_nat m) = String.substring 0 m s.
Proof.
  intros H. unfold substr. change (0 <? 0) with false. cbv iota.
  f_equal; lia.
Qed.

Lemma substr_0_negative s : substr s 0 (-1) = "".
Proof.
  unfold substr. change (0 <? 0) with false. cbv iota.
  rewrite <- (substring_0_0 s). f_equal; lia.
Qed.

Lemma length_append a b :
  String.length (a ++ b) = (String.length a + String.length b)%nat.
Proof.
  induction a; rewrite ?append_empty_l, ?append_String; simpl; congruence.
Qed.

(** C4, as stated, fails: without the delimiter [indexOf] answers [-1],
    and [substr(0, -1)] is the empty string, not the whole string. *)
Lemma getPeerCount_without_delimiter :
  indexOf "12" delimiter = -1 /\
  getPeerCount (ArgPrim (PStr "12")) = Returns (VPrim (PStr "")) /\
  getPeerCount (ArgPrim (PStr "12")) <> Returns (VPrim (PStr "12")).
Proof. split; [reflexivity |]. split; [reflexivity | discriminate]. Qed.

(** C4 (amended): for every input string [getPeerCount] returns, without
    raising; when the string contains the delimiter the result is what
    stands before its first occurrence; when it does not, the result is
    the empty string. *)
Theorem getPeerCount_before_delimiter (s : string) :
  exists count,
    getPeerCount (ArgPrim (PStr s)) = Returns (VPrim (PStr count)) /\
    (forall clientData : snapshot,
       getTotalPeers (<["totalPeers" := PStr s]> clientData)
       = Returns (VPrim (PStr count)) /\
       getTotalSeeds (<["totalSeeds" := PStr s]> clientData)
       = Returns (VPrim (PStr count))) /\
    ((exists extra,
        s = (count ++ delimiter ++ extra)%string /\
        forall a b, s = (a ++ delimiter ++ b)%string ->
                    (String.length count <= String.length a)%nat)
     \/ ((forall a b, s <> (a ++ delimiter ++ b)%string) /\ count = "")).
Proof.
  unfold getTotalPeers, getTotalSeeds.
  setoid_rewrite field_insert.
  unfold getPeerCount, indexOf. fold delimiter.
  destruct (String.index 0 delimiter s) as [m|] eqn:E.
  - pose proof (index_correct1 _ _ _ _ E) as H1.
    destruct (substring_occurrence m delimiter s ltac:(discriminate) H1)
      as (post & Hs & Hl).
    exists (String.substring 0 m s).
    assert (Hsub : substr s 0 (Z.of_nat m) = String.substring 0 m s).
    { apply substr_0_nat. rewrite Hs, length_append, Hl. lia. }
    rewrite Hsub. split; [reflexivity |]. split; [done |].
    + left. exists post. split; [exact Hs |].
      intros a b Hab. rewrite Hl.
      destruct (le_lt_dec m (String.length a)) as [|Hlt]; [assumption |].
      exfalso. apply (index_correct2 _ _ _ _ E (String.length a)); [lia | exact Hlt |].
      rewrite Hab. apply substring_app_middle.
  - exists "". rewrite substr_0_negative. split; [reflexivity |]. split; [done |].
    right. split; [| reflexivity].
    intros a b Hab.
    apply (index_correct3 0 (String.length a) _ _ E); [discriminate | lia |].
    rewrite Hab. apply substring_app_middle.
Qed.

(** ** Comparisons of numbers

    The comparisons of binary64 numbers are specified by [SFcompare] on
    sign, exponent and mantissa; the lemmas below read the tests of the
    source against the constants 0, 10 and 100 through it. *)

Lemma Prim2SF_0 : Prim2SF 0 = S754_zero false.
Proof. reflexivity. Qed.

Lemma Prim2SF_10 : Prim2SF 10 = S754_finite false 5629499534213120 (-49).
Proof. reflexivity. Qed.

Lemma Prim2SF_100 : Prim2SF 100 = S754_finite false 7036874417766400 (-46).
Proof. reflexivity. Qed.

Lemma mantissa_eq a b : PosDef.Pos.compare_cont Eq a b = Eq -> Zpos a = Zpos b.
Proof. intros H. apply Pos.compare_eq in H. congruence. Qed.

Lemma mantissa_lt a b : PosDef.Pos.compare_cont Eq a b = Lt -> Zpos a < Zpos b.
Proof. intros H. exact H. Qed.

Lemma mantissa_gt a b : PosDef.Pos.compare_cont Eq a b = Gt -> Zpos b < Zpos a.
Proof. intros H. apply Z.gt_lt. exact H. Qed.

Ltac float_spec :=
  unfold gt, lt, is_nan;
  rewrite ?FloatAxioms.ltb_spec, ?FloatAxioms.leb_spec, ?FloatAxioms.eqb_spec,
    ?Prim2SF_0, ?Prim2SF_10, ?Prim2SF_100.

Ltac compare_cases :=
  rewrite ?Z.compare_refl, ?Pcompare_refl;
  repeat match goal with
         | |- context [Z.compare ?c ?e] => is_var e; rewrite (Z.compare_antisym e c)
         | |- context [PosDef.Pos.compare_cont Eq ?c ?m] => is_var m; rewrite (ZC4 c m)
         end;
  repeat match goal with
         | |- context [Z.compare ?a ?b] =>
             let H := fresh in
             destruct (Z.compare_spec a b) as [H|H|H]
         | |- context [PosDef.Pos.compare_cont Eq ?a ?b] =>
             let H := fresh in
             destruct (PosDef.Pos.compare_cont Eq a b) eqn:H;
             [ apply mantissa_eq in H | apply mantissa_lt in H | apply mantissa_gt in H ]
         end;
  cbn [andb negb orb CompOpp].

Ltac float_cases x :=
  destruct (Prim2SF x) as [[]|[]| |[] ? ?];
  unfold SFltb, SFleb, SFeqb, SFcompare; cbv iota beta;
  compare_cases.

Ltac float_solve x :=
  float_spec; float_cases x;
  first [ by intuition discriminate | exfalso; lia ].

(** Neither rounding branch is taken exactly when [p <= 0], [p == 10],
    [p >= 100] or [p] is NaN. *)
Lemma unrounded_range (p : float) :
  (gt p 0 && lt p 10 = false /\ gt p 10 && lt p 100 = false) <->
  ((p <=? 0)%float = true \/ (p =? 10)%float = true \/
   (100 <=? p)%float = true \/ is_nan p = true).
Proof. float_solve p. Qed.

Lemma percent_ranges (p : float) :
  (gt p 0 = true /\ lt p 10 = true) \/ (gt p 10 = true /\ lt p 100 = true) \/
  (p <=? 0)%float = true \/ (p =? 10)%float = true \/
  (100 <=? p)%float = true \/ is_nan p = true.
Proof.
  destruct (gt p 0 && lt p 10) eqn:A.
  { left. by apply andb_true_iff. }
  destruct (gt p 10 && lt p 100) eqn:B.
  { right; left. by apply andb_true_iff. }
  right; right. by apply unrounded_range.
Qed.


(** ** Printing a numeral and reading it back *)

Lemma digits_all_digits s : forall rest acc len,
  all_digits s = true -> no_digit_ahead rest ->
  digits 10 acc len (s ++ rest) = (dec_value acc s, len + Z.of_nat (String.length s), rest).
Proof.
  induction s as [|c s IH]; intros rest acc len Hs Hrest.
  - rewrite append_empty_l. cbn [String.length dec_value]. rewrite Z.add_0_r.
    destruct rest as [|c r]; [reflexivity |].
    cbn [digits]. unfold no_digit_ahead, is_digit in Hrest.
    by destruct (digit_of 10 c).
  - rewrite append_String. cbn [all_digits] in Hs. apply andb_true_iff in Hs as [Hc Hs].
    cbn [digits dec_value String.length]. unfold is_digit in Hc.
    destruct (digit_of 10 c) as [d|]; [| discriminate].
    rewrite IH by done. f_equal. f_equal. lia.
Qed.

Lemma dec_value_app s1 : forall s2 acc,
  all_digits s1 = true -> dec_value acc (s1 ++ s2) = dec_value (dec_value acc s1) s2.
Proof.
  induction s1 as [|c s1 IH]; intros s2 acc H; [reflexivity |].
  rewrite append_String. cbn [all_digits] in H. apply andb_true_iff in H as [Hc H].
  cbn [dec_value]. unfold is_digit in Hc.
  destruct (digit_of 10 c); [by apply IH | discriminate].
Qed.

Lemma all_digits_app s1 s2 :
  all_digits (s1 ++ s2) = all_digits s1 && all_digits s2.
Proof.
  induction s1 as [|c s1 IH]; [reflexivity |].
  rewrite append_String. cbn [all_digits]. by rewrite IH, andb_assoc.
Qed.

Lemma all_digits_zeros k : all_digits (zeros k) = true.
Proof. induction k; [reflexivity | exact IHk]. Qed.

Lemma dec_value_zeros k : dec_value 0 (zeros k) = 0.
Proof. induction k; [reflexivity | exact IHk]. Qed.

Lemma length_zeros k : String.length (zeros k) = k.
Proof. induction k; simpl; congruence. Qed.

Lemma string_of_uint_digits d :
  all_digits (NilEmpty.string_of_uint d) = true /\
  forall acc, dec_value (Z.of_N acc) (NilEmpty.string_of_uint d) = Z.of_N (uint_value acc d).
Proof.
  induction d as [|d [IH1 IH2]|d [IH1 IH2]|d [IH1 IH2]|d [IH1 IH2]|d [IH1 IH2]
                  |d [IH1 IH2]|d [IH1 IH2]|d [IH1 IH2]|d [IH1 IH2]|d [IH1 IH2]];
    (split; [try exact IH1; reflexivity |]); intros acc; [reflexivity | ..];
    cbn [NilEmpty.string_of_uint dec_value uint_value];
    match goal with |- context [digit_of 10 ?c] =>
      let v := eval vm_compute in (digit_of 10 c) in change (digit_of 10 c) with v end;
    cbv iota beta; rewrite <- IH2; f_equal; lia.
Qed.

Lemma uint_value_of_lu d : forall acc,
  uint_value acc d = (acc * 10 ^ DecimalPos.Unsigned.usize d + DecimalPos.Unsigned.of_lu (Decimal.rev d))%N.
Proof.
  unfold Decimal.rev.
  induction d; intros acc; cbn [uint_value DecimalPos.Unsigned.usize Decimal.revapp];
    [cbn; lia | ..];
    rewrite IHd, (DecimalPos.Unsigned.of_lu_revapp d (_ Decimal.Nil)), N.pow_succ_r';
    change (Decimal.revapp d Decimal.Nil) with (Decimal.rev d); cbn [DecimalPos.Unsigned.of_lu]; lia.
Qed.

Lemma decimal_digits_value n :
  0 <= n ->
  all_digits (decimal_digits n) = true /\ dec_value 0 (decimal_digits n) = n.
Proof.
  intros Hn. unfold decimal_digits.
  set (u := N.to_uint (Z.to_N n)).
  assert (Hu : NilZero.string_of_uint u = NilEmpty.string_of_uint u).
  { assert (u <> Decimal.Nil).
    { subst u. destruct (Z.to_N n); [discriminate | apply DecimalPos.Unsigned.to_uint_nonnil]. }
    by destruct u. }
  rewrite Hu. destruct (string_of_uint_digits u) as [H1 H2].
  split; [exact H1 |].
  change 0 with (Z.of_N 0). rewrite H2, uint_value_of_lu, N.mul_0_l, N.add_0_l.
  rewrite <- DecimalPos.Unsigned.of_uint_alt.
  change (Pos.of_uint u) with (N.of_uint u). subst u.
  rewrite DecimalN.Unsigned.of_to. lia.
Qed.

Lemma substring_all_digits s : forall a b,
  all_digits s = true -> all_digits (String.substring a b s) = true.
Proof.
  induction s as [|c s IH]; intros a b H.
  - by destruct a, b.
  - cbn [all_digits] in H. apply andb_true_iff in H as [Hc H].
    destruct a as [|a]; destruct b as [|b]; cbn [String.substring all_digits];
      rewrite ?Hc, ?IH; done.
Qed.

Lemma substring_split s : forall a b,
  (a + b)%nat = String.length s ->
  (String.substring 0 a s ++ String.substring a b s)%string = s.
Proof.
  induction s as [|c s IH]; intros a b H.
  - destruct a, b; simpl in H; try lia. reflexivity.
  - destruct a as [|a].
    + rewrite substring_0_0, append_empty_l. simpl in H. subst b.
      cbn [String.substring]. f_equal.
      specialize (IH 0%nat (String.length s) eq_refl).
      by rewrite substring_0_0, append_empty_l in IH.
    + cbn [String.substring]. rewrite append_String. f_equal.
      apply IH. simpl in H. lia.
Qed.

Lemma substring_length s : forall a b,
  (a + b <= String.length s)%nat -> String.length (String.substring a b s) = b.
Proof.
  induction s as [|c s IH]; intros a b H.
  - destruct a, b; simpl in *; try lia; reflexivity.
  - destruct a as [|a]; destruct b as [|b]; cbn [String.substring String.length];
      try reflexivity; simpl in H; rewrite IH; lia.
Qed.

Lemma append_empty_r s : (s ++ "")%string = s.
Proof. induction s; rewrite ?append_empty_l, ?append_String; congruence. Qed.

(** The ten digits are the only characters [is_digit] accepts. *)
Lemma is_digit_cases c :
  is_digit c = true ->
  c ∈ ["0"; "1"; "2"; "3"; "4"; "5"; "6"; "7"; "8"; "9"]%char.
Proof.
  destruct c as [[] [] [] [] [] [] [] []]; vm_compute; try discriminate; intros _;
    repeat first [ apply list_elem_of_here | apply list_elem_of_further ].
Qed.

Ltac digit_cases c H :=
  apply is_digit_cases in H;
  repeat (apply elem_of_cons in H as [H|H]; [subst c |]);
  [.. | by apply elem_of_nil in H].

Lemma trim_no_white s : no_white s = true -> trim s = s.
Proof.
  intros H. unfold trim.
  assert (Hs : trimStart s = s).
  { destruct s as [|c s]; [reflexivity |]. cbn [trimStart no_white] in *.
    apply andb_true_iff in H as [Hc _]. by destruct (is_white c). }
  rewrite Hs. clear Hs.
  induction s as [|c s IH]; [reflexivity |].
  cbn [no_white] in H. apply andb_true_iff in H as [Hc H].
  cbn [trimEnd]. rewrite (IH H).
  destruct s; [| reflexivity]. by destruct (is_white c).
Qed.

Lemma no_white_app s1 s2 : no_white (s1 ++ s2) = no_white s1 && no_white s2.
Proof.
  induction s1 as [|c s1 IH]; [reflexivity |].
  rewrite append_String. cbn [no_white]. by rewrite IH, andb_assoc.
Qed.

Lemma all_digits_no_white s : all_digits s = true -> no_white s = true.
Proof.
  induction s as [|c s IH]; [reflexivity |].
  cbn [all_digits no_white]. intros H. apply andb_true_iff in H as [Hc H].
  rewrite (IH H), andb_true_r. digit_cases c Hc; reflexivity.
Qed.

Lemma StringToNumber_decimal s :
  no_white s = true -> decimal_head s = true ->
  StringToNumber s = unsigned_decimal false s.
Proof.
  intros Hw Hh. unfold StringToNumber. rewrite (trim_no_white s Hw).
  destruct s as [|c1 r]; [discriminate |].
  cbn [decimal_head] in Hh. apply andb_true_iff in Hh as [H1 H2].
  assert (Hr : radix_prefix (String c1 r) = None).
  { destruct r as [|c2 r]; [reflexivity |]. cbn [radix_prefix].
    destruct (c1 =? "0")%char; [| reflexivity].
    apply orb_true_iff in H2 as [H2|H2].
    - digit_cases c2 H2; reflexivity.
    - apply Ascii.eqb_eq in H2 as ->. reflexivity. }
  rewrite Hr. unfold signed_decimal.
  digit_cases c1 H1; reflexivity.
Qed.

Lemma unsigned_decimal_point a b :
  a <> "" -> all_digits a = true -> all_digits b = true ->
  unsigned_decimal false (a ++ "." ++ b) =
  round_decimal false (dec_value 0 (a ++ b)) (- Z.of_nat (String.length b)).
Proof.
  intros Ha Da Db. unfold unsigned_decimal.
  rewrite digits_all_digits by done.
  change ("." ++ b)%string with (String "." b).
  rewrite <- (append_empty_r b) at 1.
  rewrite digits_all_digits by done.
  rewrite <- dec_value_app by done.
  destruct a as [|c a]; [done |]. cbn [String.length].
  replace (0 + Z.of_nat (S (String.length a)) =? 0) with false by (symmetry; apply Z.eqb_neq; lia).
  cbn [andb]. by rewrite Z.add_0_l.
Qed.

Lemma unsigned_decimal_integer a :
  a <> "" -> all_digits a = true ->
  unsigned_decimal false a = round_decimal false (dec_value 0 a) 0.
Proof.
  intros Ha Da. unfold unsigned_decimal.
  rewrite <- (append_empty_r a) at 1.
  rewrite digits_all_digits by done.
  destruct a as [|c a]; [done |]. cbn [String.length].
  replace (0 + Z.of_nat (S (String.length a)) =? 0) with false by (symmetry; apply Z.eqb_neq; lia).
  reflexivity.
Qed.

(** Reading back what [toFixed] prints: the number nearest to [n / 10^f]. *)
Lemma Number_fixed_point n f :
  0 <= n -> Number (fixed_point n f) = round_decimal false n (- Z.of_nat f).
Proof.
  intros Hn. destruct (decimal_digits_value n Hn) as [Hd Hv].
  assert (Hne : decimal_digits n <> "").
  { unfold decimal_digits. destruct (N.to_uint (Z.to_N n)); discriminate. }
  unfold Number, ToNumber, fixed_point.
  destruct f as [|f].
  - rewrite StringToNumber_decimal.
    + rewrite unsigned_decimal_integer by done. by rewrite Hv.
    + by apply all_digits_no_white.
    + destruct (decimal_digits n) as [|c1 [|c2 r]]; [done | ..];
        cbn [decimal_head all_digits] in *.
      * by rewrite andb_true_r in Hd |- *.
      * apply andb_true_iff in Hd as [-> Hd]. apply andb_true_iff in Hd as [-> _]. reflexivity.
  - set (m := (zeros (S (S f) - String.length (decimal_digits n)) ++ decimal_digits n)%string).
    assert (Dm : all_digits m = true).
    { subst m. by rewrite all_digits_app, all_digits_zeros, Hd. }
    assert (Vm : dec_value 0 m = n).
    { subst m. rewrite dec_value_app by apply all_digits_zeros.
      by rewrite dec_value_zeros. }
    assert (Lm : (S (S f) <= String.length m)%nat).
    { subst m. rewrite length_append, length_zeros. lia. }
    set (k := String.length m) in *.
    set (a := String.substring 0 (k - S f) m).
    set (b := String.substring (k - S f) (S f) m).
    assert (Hab : (a ++ b)%string = m) by (apply substring_split; lia).
    assert (Da : all_digits a = true) by by apply substring_all_digits.
    assert (Db : all_digits b = true) by by apply substring_all_digits.
    assert (La : String.length a = (k - S f)%nat) by (apply substring_length; lia).
    assert (Lb : String.length b = S f) by (apply substring_length; lia).
    assert (Ha : a <> "") by (intros E; rewrite E in La; simpl in La; lia).
    rewrite StringToNumber_decimal.
    + rewrite unsigned_decimal_point by done. by rewrite Hab, Vm, Lb.
    + rewrite !no_white_app, (all_digits_no_white a), (all_digits_no_white b) by done.
      reflexivity.
    + destruct a as [|c1 [|c2 r]]; [done | ..]; cbn [all_digits] in Da |- *;
        rewrite ?append_String, ?append_empty_l; cbn [decimal_head].
      * rewrite andb_true_r in Da. rewrite Da. reflexivity.
      * apply andb_true_iff in Da as [-> Da]. apply andb_true_iff in Da as [-> _]. reflexivity.
Qed.

(** ** getPercentComplete *)

(** The integer [toFixed] prints is the one nearest to [m * 2^e * 10^f],
    the larger one when two are equally near. *)
Lemma nearest_scaled_nearest m e f :
  let n := nearest_scaled m e f in
  let scaled := Zpos m * 10 ^ Z.of_nat f in
  (0 <= e -> n = scaled * 2 ^ e) /\
  (e < 0 -> (2 * n - 1) * 2 ^ (- e) <= 2 * scaled < (2 * n + 1) * 2 ^ (- e)).
Proof.
  intros n scaled. subst n. unfold nearest_scaled. fold scaled.
  destruct (Z.leb_spec 0 e) as [He|He]; (split; [intros; first [reflexivity | lia] |]); [lia |].
  intros _.
  assert (Hd : 0 < 2 ^ (- e)) by (apply Z.pow_pos_nonneg; lia).
  replace (2 ^ (- e + 1)) with (2 * 2 ^ (- e)) by (rewrite Z.pow_add_r by lia; lia).
  set (d := 2 ^ (- e)) in *.
  pose proof (Z.div_mod (2 * scaled + d) (2 * d) ltac:(lia)) as Hdm.
  pose proof (Z.mod_pos_bound (2 * scaled + d) (2 * d) ltac:(lia)) as Hb.
  set (q := (2 * scaled + d) / (2 * d)) in *.
  set (r := (2 * scaled + d) mod (2 * d)) in *.
  nia.
Qed.

Lemma nearest_scaled_nonneg m e f : 0 <= nearest_scaled m e f.
Proof.
  unfold nearest_scaled.
  assert (0 <= 10 ^ Z.of_nat f) by (apply Z.pow_nonneg; lia).
  destruct (Z.leb_spec 0 e).
  - assert (0 <= 2 ^ e) by (apply Z.pow_nonneg; lia). nia.
  - assert (0 <= 2 ^ (- e)) by (apply Z.pow_nonneg; lia).
    apply Z.div_pos; [nia | apply Z.pow_pos_nonneg; lia].
Qed.

(** Printing a positive number with [d] decimals and reading the text
    back rounds it to [d] decimal places. *)
Lemma Number_toFixed p m e d :
  Prim2SF p = S754_finite false m e -> Number (toFixed p d) = rounded m e d.
Proof.
  intros H. unfold toFixed, rounded. rewrite H, append_empty_l.
  apply Number_fixed_point, nearest_scaled_nonneg.
Qed.

(** A number between 0 and a finite bound is positive and finite. *)
Lemma positive_finite p bound :
  gt p 0 = true -> lt p bound = true ->
  exists m e, Prim2SF p = S754_finite false m e.
Proof.
  unfold gt, lt. rewrite !FloatAxioms.ltb_spec, Prim2SF_0.
  destruct (Prim2SF p) as [[]|[]| |[] m e]; try discriminate.
  - intros _. by destruct (Prim2SF bound) as [[]|[]| |[] ? ?].
  - intros _ _. by exists m, e.
Qed.

(** [2^bits] exceeds a number of that many bits. *)
Lemma digits2_pos_bound m : Zpos m < 2 ^ Zpos (digits2_pos m).
Proof.
  induction m as [m IH|m IH|]; cbn [digits2_pos]; rewrite ?Pos2Z.inj_succ, ?Z.pow_succ_r by lia;
    [rewrite Pos2Z.inj_xI | rewrite Pos2Z.inj_xO | reflexivity]; lia.
Qed.

(** The mantissa of a binary64 number has at most 53 bits. *)
Lemma mantissa_bound p s m e : Prim2SF p = S754_finite s m e -> Zpos m < 2 ^ 53.
Proof.
  intros H. pose proof (Prim2SF_valid p) as Hv. rewrite H in Hv.
  unfold valid_binary, SpecFloat.valid_binary, bounded in Hv.
  apply andb_true_iff in Hv as [Hc _].
  unfold canonical_mantissa, fexp in Hc. apply Z.eqb_eq in Hc.
  assert (Zpos (digits2_pos m) <= 53) by (unfold prec in Hc; lia).
  eapply Z.lt_le_trans; [apply digits2_pos_bound |].
  apply Z.pow_le_mono_r; lia.
Qed.

(** A number below 10, and one below 100, in terms of its mantissa and
    exponent. *)
Lemma below_10 p m e :
  Prim2SF p = S754_finite false m e -> lt p 10 = true ->
  e < 0 /\ Zpos m < 10 * 2 ^ (- e).
Proof.
  intros H Hlt. pose proof (mantissa_bound _ _ _ _ H) as Hm.
  unfold lt in Hlt. rewrite FloatAxioms.ltb_spec, H, Prim2SF_10 in Hlt.
  unfold SFltb, SFcompare in Hlt.
  destruct (Z.compare_spec e (-49)) as [->|He|He]; [| | discriminate].
  - split; [lia |].
    destruct (PosDef.Pos.compare_cont Eq m 5629499534213120) eqn:C; try discriminate.
    apply mantissa_lt in C. change (10 * 2 ^ (- -49)) with 5629499534213120. exact C.
  - split; [lia |].
    assert (2 ^ 50 <= 2 ^ (- e)) by (apply Z.pow_le_mono_r; lia).
    change (2 ^ 53) with (8 * 2 ^ 50) in Hm. lia.
Qed.

Lemma below_100 p m e :
  Prim2SF p = S754_finite false m e -> lt p 100 = true ->
  e < 0 /\ Zpos m < 100 * 2 ^ (- e).
Proof.
  intros H Hlt. pose proof (mantissa_bound _ _ _ _ H) as Hm.
  unfold lt in Hlt. rewrite FloatAxioms.ltb_spec, H, Prim2SF_100 in Hlt.
  unfold SFltb, SFcompare in Hlt.
  destruct (Z.compare_spec e (-46)) as [->|He|He]; [| | discriminate].
  - split; [lia |].
    destruct (PosDef.Pos.compare_cont Eq m 7036874417766400) eqn:C; try discriminate.
    apply mantissa_lt in C. change (100 * 2 ^ (- -46)) with 7036874417766400. exact C.
  - split; [lia |].
    assert (2 ^ 47 <= 2 ^ (- e)) by (apply Z.pow_le_mono_r; lia).
    change (2 ^ 53) with (64 * 2 ^ 47) in Hm. lia.
Qed.

(** The integer that [toFixed] prints is the nearest one. *)
Lemma nearest_scaled_nearest_integer m e d : nearest_integer m e d (nearest_scaled m e d).
Proof.
  unfold nearest_integer.
  destruct (nearest_scaled_nearest m e d) as [Hpos Hneg].
  destruct (Z.le_gt_cases 0 e) as [He|He].
  - rewrite (Z.max_l 0 (- e)), (Z.max_r 0 e) by lia. rewrite (Hpos He).
    change (2 ^ 0) with 1. lia.
  - rewrite (Z.max_r 0 (- e)), (Z.max_l 0 e) by lia. change (2 ^ 0) with 1.
    specialize (Hneg He). lia.
Qed.

Lemma nearest_integer_bound m e d n bound :
  e < 0 -> Zpos m < bound * 2 ^ (- e) ->
  nearest_integer m e d n ->
  0 <= n /\ 2 * n - 1 < 2 * bound * 10 ^ Z.of_nat d.
Proof.
  unfold nearest_integer. intros He Hm.
  rewrite (Z.max_r 0 (- e)), (Z.max_l 0 e) by lia. change (2 ^ 0) with 1.
  assert (0 < 2 ^ (- e)) by (apply Z.pow_pos_nonneg; lia).
  assert (0 < 10 ^ Z.of_nat d) by (apply Z.pow_pos_nonneg; lia).
  set (D := 2 ^ (- e)) in *. set (T := 10 ^ Z.of_nat d) in *.
  intros [Hlo Hhi]. split; nia.
Qed.

(** Reading the digits of [n], at most 1000, with a point before the last
    two or the last one gives the quotient of [n] by 100 or by 10: both
    are the number nearest to the fraction. *)
Lemma round_decimal_quotient n :
  0 <= n <= 1000 ->
  round_decimal false n (-2) = (integer n / 100)%float /\
  round_decimal false n (-1) = (integer n / 10)%float.
Proof.
  intros Hn.
  assert (H2 : forallb (quotients_agree 2 100) (seq 0 1001) = true) by (vm_compute; reflexivity).
  assert (H1 : forallb (quotients_agree 1 10) (seq 0 1001) = true) by (vm_compute; reflexivity).
  rewrite forallb_forall in H1, H2.
  assert (Hin : In (Z.to_nat n) (seq 0 1001)) by (apply in_seq; lia).
  specialize (H1 _ Hin). specialize (H2 _ Hin).
  unfold quotients_agree in H1, H2. rewrite Z2Nat.id in H1, H2 by lia.
  apply FloatAxioms.Leibniz.eqb_spec in H1, H2. done.
Qed.

(** C5: with [p = bytesDone / sizeBytes * 100], the result is [p] rounded
    to two decimal places when [0 < p < 10], [p] rounded to one decimal
    place when [10 < p < 100], and [p] itself in every other case:
    [p <= 0], [p == 10], [p >= 100], [p] NaN.  These cases cover every
    number.  Rounded to [d] places: with [n] the integer nearest to
    [p * 10^d], the larger one when two are equally near, the result is
    the quotient of [n] by [10^d], which is the number nearest to that
    fraction, [n] being at most 1000. *)
Theorem getPercentComplete_rounding (clientData : snapshot) :
  let p := (ToNumber (field clientData "bytesDone")
            / ToNumber (field clientData "sizeBytes") * 100)%float in
  (gt p 0 = true /\ lt p 10 = true ->
   exists m e n,
     Prim2SF p = S754_finite false m e /\
     nearest_integer m e 2 n /\ 0 <= n <= 1000 /\
     getPercentComplete clientData = Returns (VPrim (PNum (integer n / 100)))) /\
  (gt p 10 = true /\ lt p 100 = true ->
   exists m e n,
     Prim2SF p = S754_finite false m e /\
     nearest_integer m e 1 n /\ 0 <= n <= 1000 /\
     getPercentComplete clientData = Returns (VPrim (PNum (integer n / 10)))) /\
  ((p <=? 0)%float = true \/ (p =? 10)%float = true \/
   (100 <=? p)%float = true \/ is_nan p = true ->
   getPercentComplete clientData = Returns (VPrim (PNum p))) /\
  ((gt p 0 = true /\ lt p 10 = true) \/ (gt p 10 = true /\ lt p 100 = true) \/
   (p <=? 0)%float = true \/ (p =? 10)%float = true \/
   (100 <=? p)%float = true \/ is_nan p = true).
Proof.
  intros p. unfold getPercentComplete. fold p.
  split; [| split; [| split]].
  - intros [H0 H10]. destruct (positive_finite p 10 H0 H10) as (m & e & Hp).
    pose proof (nearest_scaled_nearest_integer m e 2) as Hn.
    destruct (below_10 p m e Hp H10) as [He Hm].
    destruct (nearest_integer_bound m e 2 _ 10 He Hm Hn) as [Hlo Hhi].
    change (2 * 10 * 10 ^ Z.of_nat 2) with 2000 in Hhi.
    exists m, e, (nearest_scaled m e 2).
    split; [done |]. split; [done |]. split; [lia |].
    rewrite H0, H10, (Number_toFixed p m e 2 Hp). unfold rounded. cbn [andb].
    change (- Z.of_nat 2) with (-2).
    by rewrite (proj1 (round_decimal_quotient (nearest_scaled m e 2) ltac:(lia))).
  - intros [H10 H100].
    assert (H0 : gt p 0 = true).
    { revert H10. float_solve p. }
    destruct (positive_finite p 100 H0 H100) as (m & e & Hp).
    pose proof (nearest_scaled_nearest_integer m e 1) as Hn.
    destruct (below_100 p m e Hp H100) as [He Hm].
    destruct (nearest_integer_bound m e 1 _ 100 He Hm Hn) as [Hlo Hhi].
    change (2 * 100 * 10 ^ Z.of_nat 1) with 2000 in Hhi.
    exists m, e, (nearest_scaled m e 1).
    split; [done |]. split; [done |]. split; [lia |].
    assert (lt p 10 = false) as ->.
    { revert H10. float_solve p. }
    rewrite andb_false_r.
    rewrite H10, H100, (Number_toFixed p m e 1 Hp). unfold rounded. cbn [andb].
    change (- Z.of_nat 1) with (-1).
    by rewrite (proj2 (round_decimal_quotient (nearest_scaled m e 1) ltac:(lia))).
  - intros H. apply unrounded_range in H as [-> ->]. reflexivity.
  - apply percent_ranges.
Qed.

Lemma getPercentComplete_rounding_witness :
  exists m e n,
    Prim2SF (1 / 30 * 100)%float = S754_finite false m e /\
    nearest_integer m e 2 n /\ 0 <= n <= 1000 /\
    getPercentComplete (progress "1" "30") = Returns (VPrim (PNum (integer n / 100))).
Proof.
  apply (proj1 (getPercentComplete_rounding (progress "1" "30"))).
  split; vm_compute; reflexivity.
Defined.

(** The boundary examples of the specification, and two that round. *)
Example percent_0 : getPercentComplete (progress "0" "100") = Returns (VPrim (PNum 0)).
Proof. vm_compute. reflexivity. Qed.

Example percent_5 : getPercentComplete (progress "5" "100") = Returns (VPrim (PNum 5)).
Proof. vm_compute. reflexivity. Qed.

Example percent_10 : getPercentComplete (progress "10" "100") = Returns (VPrim (PNum 10)).
Proof. vm_compute. reflexivity. Qed.

Example percent_50 : getPercentComplete (progress "50" "100") = Returns (VPrim (PNum 50)).
Proof. vm_compute. reflexivity. Qed.

Example percent_100 : getPercentComplete (progress "100" "100") = Returns (VPrim (PNum 100)).
Proof. vm_compute. reflexivity. Qed.

Example percent_third : getPercentComplete (progress "1" "3") = Returns (VPrim (PNum 0x1.0a66666666666p+5)).
Proof. vm_compute. reflexivity. Qed.

Example percent_thirtieth : getPercentComplete (progress "1" "30") = Returns (VPrim (PNum 0x1.aa3d70a3d70a4p+1)).
Proof. vm_compute. reflexivity. Qed.

(** The nearest integer, not the one below: two thirtieths are 6.67. *)
Example percent_two_thirtieths :
  getPercentComplete (progress "2" "30") = Returns (VPrim (PNum (integer 667 / 100))) /\
  (integer 667 / 100 = 0x1.aae147ae147aep+2)%float.
Proof. split; vm_compute; reflexivity. Qed.

Example percent_no_size : exists p,
  getPercentComplete (progress "7" "") = Returns (VPrim (PNum p)) /\ is_infinity p = true.
Proof. eexists. split; vm_compute; reflexivity. Qed.

Example percent_missing : exists p,
  getPercentComplete ∅ = Returns (VPrim (PNum p)) /\ is_nan p = true.
Proof. eexists. split; vm_compute; reflexivity. Qed.

(** ** getEta *)


(** No clamping: more bytes done than the size gives a negative number of
    seconds, and that is what the formatter is handed. *)
Example getEta_negative (secondsToDuration : float -> string) :
  getEta secondsToDuration
    {[ "downloadRate" := PStr "10"; "bytesDone" := PStr "150";
       "sizeBytes" := PStr "100" ]}
  = Returns (VPrim (PStr (secondsToDuration (-5)%float))).
Proof. reflexivity. Qed.

Example getEta_ten_seconds (secondsToDuration : float -> string) :
  getEta secondsToDuration
    {[ "downloadRate" := PStr "10"; "bytesDone" := PStr "0";
       "sizeBytes" := PStr "100" ]}
  = Returns (VPrim (PStr (secondsToDuration 10%float))).
Proof. reflexivity. Qed.

Example getEta_stalled (secondsToDuration : float -> string) :
  getEta secondsToDuration {[ "downloadRate" := PStr "0" ]}
  = Returns (VPrim (PStr "Infinity")).
Proof. reflexivity. Qed.

Example getEta_not_a_number (secondsToDuration : float -> string) :
  getEta secondsToDuration {[ "downloadRate" := PStr "fast" ]}
  = Returns (VPrim (PStr "Infinity")) /\
  getEta secondsToDuration ∅ = Returns (VPrim (PStr "Infinity")) /\
  getEta secondsToDuration {[ "downloadRate" := PStr "-3" ]}
  = Returns (VPrim (PStr "Infinity")).
Proof. repeat split. Qed.

(** ** cleanUpDate *)

Example getAdded_zero :
  getAdded {[ "added" := PStr "0" ]} = Returns (VPrim (PStr "")) /\
  getAdded {[ "added" := PStr "  0  " ]} = Returns (VPrim (PStr "")) /\
  getAdded {[ "added" := PStr "2020-01-01" ]} = Returns (VPrim (PStr "2020-01-01")) /\
  getAdded ∅ = Returns (VPrim (PStr "")).
Proof. repeat split. Qed.

(** ** getTrackers *)

Lemma trackerDomain_unfold domainName_exec trackerDomains tracker :
  trackerDomain domainName_exec trackerDomains tracker =
  Returns (trackerDomains ++
           match hostname domainName_exec tracker with
           | Some host => [VPrim (PStr (registrable host))]
           | None => []
           end)%list.
Proof.
  unfold trackerDomain, hostname.
  destruct (domainName_exec tracker) as [groups|]; [| by rewrite app_nil_r].
  destruct (groups !! 1%nat) as [[host|]|]; try by rewrite app_nil_r.
  destruct (host =? "")%string; simpl; [by rewrite app_nil_r |].
  unfold registrable, kept, push.
  set (labels := split host ".").
  destruct (2 <? List.length labels)%nat eqn:E.
  - apply Nat.ltb_lt in E.
    destruct (lookup_lt_is_Some_2 labels (List.length labels - 2)) as [label ->]; [lia |].
    simpl. by destruct (String.length label <=? 3)%nat.
  - simpl. by destruct (labels !! (List.length labels - 2)%nat).
Qed.

Lemma forEach_tracker_unfold domainName_exec trackers trackerDomains :
  forEach_tracker domainName_exec trackers trackerDomains =
  Returns (trackerDomains ++
           ((fun host => VPrim (PStr (registrable host)))
              <$> omap (hostname domainName_exec) trackers))%list.
Proof.
  revert trackerDomains. induction trackers as [|tracker rest IH]; intros acc; simpl.
  - by rewrite app_nil_r.
  - rewrite trackerDomain_unfold. simpl. rewrite IH, <- app_assoc.
    by destruct (hostname domainName_exec tracker).
Qed.

Lemma getTrackers_unfold domainName_exec (clientData : snapshot) raw :
  getTrackers domainName_exec (<["trackers" := PStr raw]> clientData) =
  Returns (VArr ((fun host => VPrim (PStr (registrable host)))
                   <$> omap (hostname domainName_exec) (split raw delimiter))).
Proof.
  unfold getTrackers. rewrite field_insert. fold delimiter.
  by rewrite forEach_tracker_unfold.
Qed.

Example registrable_co_uk : registrable "tracker.example.co.uk" = "example.co.uk".
Proof. reflexivity. Qed.

Example registrable_two_labels : registrable "example.com" = "example.com".
Proof. reflexivity. Qed.

Example registrable_long_label : registrable "a.b.example.com" = "example.com".
Proof. reflexivity. Qed.

Example registrable_one_label : registrable "localhost" = "localhost".
Proof. reflexivity. Qed.

(** Two entries with the same hostname give the same domain twice. *)
Example getTrackers_repeats domainName_exec :
  domainName_exec "udp://b.org:80" = Some [Some "udp://b.org:80"; Some "b.org"] ->
  domainName_exec "http://t.a.co.uk/x" = Some [Some "http://t.a.co.uk/x"; Some "t.a.co.uk"] ->
  domainName_exec "junk" = None ->
  getTrackers domainName_exec
    {[ "trackers" := PStr "udp://b.org:80@!@junk@!@http://t.a.co.uk/x@!@udp://b.org:80" ]}
  = Returns (VArr [VPrim (PStr "b.org"); VPrim (PStr "a.co.uk"); VPrim (PStr "b.org")]).
Proof.
  intros H1 H2 H3.
  change ({[ "trackers" := PStr ?r ]} : snapshot) with (<["trackers" := PStr r]> (∅ : snapshot)).
  rewrite getTrackers_unfold.
  change (split _ delimiter)
    with ["udp://b.org:80"; "junk"; "http://t.a.co.uk/x"; "udp://b.org:80"].
  unfold hostname. simpl. by rewrite H1, H2, H3.
Qed.

(** ** split, join and sort *)

Lemma prefix_append sep s :
  String.prefix sep s = true -> exists rest, s = (sep ++ rest)%string.
Proof. intros H. apply prefix_correct in H. by apply substring_0_prefix. Qed.

Lemma split_from_skip sep t rest cur :
  split_from sep (String.length t) cur (t ++ rest) = split_from sep 0 cur rest.
Proof.
  induction t as [|c t IH]; [reflexivity |].
  rewrite append_String. cbn [split_from String.length]. exact IH.
Qed.

Lemma split_from_nonempty sep skip cur s : split_from sep skip cur s <> [].
Proof.
  revert skip cur. induction s as [|c s IH]; intros skip cur; cbn [split_from]; [done |].
  destruct skip; [| apply IH].
  destruct (String.prefix sep (String c s)); [done | apply IH].
Qed.

Lemma concat_cons sep x l :
  l <> [] -> String.concat sep (x :: l) = (x ++ sep ++ String.concat sep l)%string.
Proof. by destruct l. Qed.

Lemma append_assoc (a b c : string) : ((a ++ b) ++ c)%string = (a ++ (b ++ c))%string.
Proof.
  induction a as [|x a IH]; rewrite ?append_empty_l, ?append_String; congruence.
Qed.

Lemma split_from_join sep n :
  sep <> "" ->
  forall s cur, (String.length s <= n)%nat ->
    String.concat sep (split_from sep 0 cur s) = (cur ++ s)%string.
Proof.
  intros Hsep. induction n as [|n IH]; intros s cur Hn.
  - destruct s; [| simpl in Hn; lia]. simpl.
    clear. induction cur; rewrite ?append_empty_l, ?append_String; congruence.
  - destruct s as [|c s].
    + simpl. clear. induction cur; rewrite ?append_empty_l, ?append_String; congruence.
    + simpl in Hn. cbn [split_from].
      destruct (String.prefix sep (String c s)) eqn:P.
      * destruct (prefix_append _ _ P) as [rest Hrest].
        destruct sep as [|d sep]; [congruence |].
        rewrite append_String in Hrest. injection Hrest as <- ->.
        cbn [String.length].
        replace (S (String.length sep) - 1)%nat with (String.length sep) by lia.
        rewrite split_from_skip.
        rewrite concat_cons by apply split_from_nonempty.
        rewrite IH by (rewrite length_append in Hn; lia).
        by rewrite append_empty_l, append_String.
      * rewrite IH by lia. rewrite append_assoc. by rewrite append_String.
Qed.

(** Joining the pieces with the separator gives the string back. *)
Lemma join_split s sep : sep <> "" -> join (split s sep) sep = s.
Proof.
  intros Hsep. unfold join, split. destruct sep as [|c sep]; [congruence |].
  by rewrite (split_from_join _ (String.length s)).
Qed.

Global Instance str_le_total : Total str_le.
Proof. intros a b. apply String.leb_total. Qed.

Lemma sort_permutation l : sort l ≡ₚ l.
Proof. apply merge_sort_Permutation. Qed.

Lemma compare_String x a y b :
  String.compare (String x a) (String y b) =
  match N.compare (code x) (code y) with
  | Eq => String.compare a b
  | o => o
  end.
Proof. reflexivity. Qed.

Lemma compare_trans a : forall b c,
  String.compare a b <> Gt -> String.compare b c <> Gt -> String.compare a c <> Gt.
Proof.
  induction a as [|x a IH]; intros [|y b] [|z c]; try (simpl; congruence).
  rewrite !compare_String.
  destruct (N.compare_spec (code x) (code y)) as [Hxy|Hxy|Hxy];
    destruct (N.compare_spec (code y) (code z)) as [Hyz|Hyz|Hyz];
    destruct (N.compare_spec (code x) (code z)) as [Hxz|Hxz|Hxz];
    try congruence; try lia.
  apply IH.
Qed.

Global Instance str_le_trans : Transitive str_le.
Proof.
  intros a b c. unfold str_le, String.leb. intros Hab Hbc.
  pose proof (compare_trans a b c) as H.
  destruct (String.compare a b), (String.compare b c), (String.compare a c);
    try reflexivity; try discriminate; exfalso; apply H; congruence.
Qed.

Lemma sort_strongly_sorted l : StronglySorted str_le (sort l).
Proof. apply StronglySorted_merge_sort; apply _. Qed.

Lemma append_prefix_true sep rest : String.prefix sep (sep ++ rest) = true.
Proof. apply prefix_correct, substring_prefix_app. Qed.

Lemma append_inj_length (a b x y : string) :
  (a ++ x)%string = (b ++ y)%string -> String.length a = String.length b ->
  a = b /\ x = y.
Proof.
  revert b. induction a as [|c a IH]; intros [|d b] H Hl; try discriminate.
  - by rewrite !append_empty_l in H.
  - rewrite !append_String in H. injection H as -> H. simpl in Hl.
    destruct (IH b H ltac:(lia)) as [-> ->]. done.
Qed.

(** No piece of a split holds the separator. *)
Lemma split_from_free sep s :
  sep <> "" ->
  forall skip cur,
    (skip = 0%nat ->
     forall a b, (cur ++ s)%string = (a ++ sep ++ b)%string ->
                 (String.length cur <= String.length a)%nat) ->
    (skip <> 0%nat -> cur = "") ->
    Forall (fun piece => ~ occurs sep piece) (split_from sep skip cur s).
Proof.
  intros Hsep.
  assert (Hlen : (0 < String.length sep)%nat) by (destruct sep; [done | simpl; lia]).
  assert (Hempty : ~ occurs sep "").
  { intros (a & b & H). apply (f_equal String.length) in H.
    rewrite !length_append in H. simpl in H. lia. }
  induction s as [|c s IH]; intros skip cur Hinv Hcur; cbn [split_from].
  - constructor; [| constructor].
    destruct skip as [|k]; [| by rewrite Hcur].
    intros (a & b & H). specialize (Hinv eq_refl a b).
    rewrite append_empty_r in Hinv. specialize (Hinv H).
    apply (f_equal String.length) in H. rewrite !length_append in H. lia.
  - destruct skip as [|k].
    + specialize (Hinv eq_refl).
      destruct (String.prefix sep (String c s)) eqn:P.
      * constructor.
        -- intros (a & b & H).
           assert (String.length cur <= String.length a)%nat as Hle.
           { apply (Hinv a (b ++ String c s)%string). by rewrite H, !append_assoc. }
           apply (f_equal String.length) in H. rewrite !length_append in H. lia.
        -- apply IH; [intros _ a b _; simpl; lia | done].
      * apply IH; [| done]. intros _ a b H.
        rewrite append_assoc, append_String, append_empty_l in H.
        pose proof (Hinv a b H) as Hle. rewrite length_append. simpl.
        destruct (decide (String.length cur = String.length a)) as [E|Hne]; [| lia].
        destruct (append_inj_length _ _ _ _ H E) as [_ Hs].
        rewrite Hs, append_prefix_true in P. discriminate.
    + apply IH; [intros _ a b _ | intros _; by apply Hcur].
      rewrite Hcur by done. simpl. lia.
Qed.

Lemma split_free s sep :
  sep <> "" -> Forall (fun piece => ~ occurs sep piece) (split s sep).
Proof.
  intros Hsep. unfold split. destruct sep as [|c sep]; [done |].
  apply split_from_free; [done | | done].
  intros _ a b _. simpl. lia.
Qed.

(** The last [k] elements: what is left when elements are dropped from
    the front until at most [k] are left. *)
Lemma slice_last_split {A} (l : list A) k :
  exists dropped last_elements,
    l = (dropped ++ last_elements)%list /\
    List.length last_elements = Nat.min k (List.length l) /\
    slice_last l k = last_elements.
Proof.
  unfold slice_last. exists (take (List.length l - k) l), (drop (List.length l - k) l).
  split; [by rewrite take_drop |]. split; [| done].
  rewrite length_drop. lia.
Qed.

(** C7: the raw string is cut at the delimiter: the entries hold no
    delimiter and, joined by it, give the string back.  An entry in which
    the pattern finds no hostname gives nothing; every other entry gives
    the rightmost labels of its hostname joined by dots: the hostname is
    cut at its dots, labels are dropped from the left until [kept] are
    left (or all, when there are fewer), [kept] being 2, or 3 when there
    are more than two labels and the one at position [length - 2] has at
    most three characters.  The results come in the order of the entries:
    nothing is dropped, merged or moved. *)
Theorem getTrackers_domains (domainName_exec : string -> option (list (option string)))
    (clientData : snapshot) (raw : string) :
  getTrackers domainName_exec (<["trackers" := PStr raw]> clientData) =
  Returns (VArr ((fun host => VPrim (PStr (registrable host)))
                   <$> omap (hostname domainName_exec) (split raw delimiter))) /\
  String.concat delimiter (split raw delimiter) = raw /\
  Forall (fun entry => ~ occurs delimiter entry) (split raw delimiter) /\
  (forall host,
     let labels := split host "." in
     String.concat "." labels = host /\
     Forall (fun label => ~ occurs "." label) labels /\
     (exists dropped last_labels,
        labels = (dropped ++ last_labels)%list /\
        List.length last_labels = Nat.min (kept labels) (List.length labels) /\
        registrable host = String.concat "." last_labels) /\
     ((List.length labels <= 2)%nat -> kept labels = 2%nat) /\
     (forall label,
        (2 < List.length labels)%nat ->
        labels !! (List.length labels - 2)%nat = Some label ->
        ((String.length label <= 3)%nat -> kept labels = 3%nat) /\
        ((3 < String.length label)%nat -> kept labels = 2%nat))).
Proof.
  split; [apply getTrackers_unfold |].
  split; [by apply (join_split raw delimiter) |].
  split; [by apply split_free |].
  intros host labels.
  split; [by apply (join_split host ".") |].
  split; [by apply split_free |].
  split.
  { destruct (slice_last_split labels (kept labels)) as (dropped & last_labels & H1 & H2 & H3).
    exists dropped, last_labels. split; [done |]. split; [done |].
    unfold registrable, join. fold labels. by rewrite H3. }
  unfold kept. split.
  - intros H. destruct (labels !! _); [| reflexivity].
    destruct (Nat.ltb_spec 2 (List.length labels)); [lia | reflexivity].
  - intros label H ->.
    destruct (Nat.ltb_spec 2 (List.length labels)); [| lia].
    destruct (Nat.leb_spec (String.length label) 3); simpl; split; intros; first [reflexivity | lia].
Qed.

(** ** getTags *)

Lemma mapM_Returns {A B} (f : A -> completion B) l r :
  mapM f l = Returns r <-> Forall2 (fun a b => f a = Returns b) l r.
Proof.
  revert r. induction l as [|a l IH]; intros r; simpl; unfold mret, completion_ret.
  - split; [intros [= <-]; constructor | by inversion 1].
  - destruct (f a) as [b|e] eqn:Fa; simpl.
    + destruct (mapM f l) as [bs|e] eqn:Fl; simpl; unfold mret, completion_ret.
      * split.
        -- intros [= <-]. constructor; [done | by apply IH].
        -- inversion 1 as [|? b' ? bs' Hb Hbs]; subst.
           apply IH in Hbs. congruence.
      * split; [done |].
        inversion 1 as [|? b' ? bs' Hb Hbs]; subst. apply IH in Hbs. done.
    + split; [done |]. inversion 1; congruence.
Qed.

Lemma mapM_Throws {A B} (f : A -> completion B) l e :
  mapM f l = Throws e -> exists a, a ∈ l /\ f a = Throws e.
Proof.
  induction l as [|a l IH]; simpl; [done |].
  destruct (f a) as [b|e'] eqn:Fa; simpl.
  - destruct (mapM f l) as [bs|e'] eqn:Fl; simpl; [done |].
    intros [= ->]. destruct IH as (a' & Hin & Ha'); [done |].
    exists a'. split; [by apply list_elem_of_further | done].
  - intros [= ->]. exists a. split; [by apply list_elem_of_here | done].
Qed.

Lemma returns_Returns {A} (a : A) : returns (Returns a).
Proof. by exists a. Qed.

Lemma returns_Throws {A} (e : exn) : ~ returns (Throws e : completion A).
Proof. by intros [a H]. Qed.

Lemma mapM_returns {A B} (f : A -> completion B) l :
  returns (mapM f l) <-> Forall (fun a => returns (f a)) l.
Proof.
  split.
  - intros [r H]. apply mapM_Returns in H.
    induction H as [|a b l r Hab _ IH]; constructor; [by exists b | exact IH].
  - induction 1 as [|a l [b Hb] _ [r Hr]]; [by exists [] |].
    exists (b :: r). simpl. by rewrite Hb, Hr.
Qed.

(** C6, as stated, fails: a piece that is not a well-formed encoding makes
    [decodeURIComponent] raise a URIError, and [getTags] with it.  The
    pieces of [b,%,a] in order are [%], [a] and [b]; on a lone percent
    sign the decoder raises. *)
Lemma getTags_malformed_escape :
  sort (split "b,%,a" ",") = ["%"; "a"; "b"] /\
  (forall decodeURIComponent : string -> completion string,
     decodeURIComponent "%" = Throws URIError ->
     forall clientData : snapshot,
       getTags decodeURIComponent (<["tags" := PStr "b,%,a"]> clientData)
       = Throws URIError).
Proof.
  split; [reflexivity |].
  intros decodeURIComponent H clientData. unfold getTags. rewrite field_insert.
  change (strict_eq (PStr "b,%,a") (PStr "")) with false. cbv iota.
  change (sort (split "b,%,a" ",")) with ["%"; "a"; "b"].
  cbn [mapM]. by rewrite H.
Qed.

(** C6 (amended): the empty string gives the empty list, and so never a
    list that holds an empty string.  Any other string is cut at its
    commas: the pieces hold no comma and, joined by commas, give the
    string back.  The pieces are put into the order of their code units
    as they stand, still encoded, and then decoded one by one.  [getTags]
    returns exactly when every piece can be decoded, and then the result
    is the list of the decoded pieces in that order; when a piece is not a
    well-formed encoding, [getTags] raises what [decodeURIComponent]
    raises on it. *)
Theorem getTags_sorted_then_decoded
    (decodeURIComponent : string -> completion string)
    (clientData : snapshot) (raw : string) :
  let pieces := split raw "," in
  let tokens := sort pieces in
  (raw = "" ->
   getTags decodeURIComponent (<["tags" := PStr raw]> clientData) = Returns (VArr []) /\
   forall tags,
     getTags decodeURIComponent (<["tags" := PStr raw]> clientData) = Returns (VArr tags) ->
     VPrim (PStr "") ∉ tags) /\
  (raw <> "" ->
   String.concat "," pieces = raw /\
   Forall (fun piece => ~ occurs "," piece) pieces /\
   tokens ≡ₚ pieces /\
   StronglySorted str_le tokens /\
   (returns (getTags decodeURIComponent (<["tags" := PStr raw]> clientData)) <->
    Forall (fun token => returns (decodeURIComponent token)) tokens) /\
   match getTags decodeURIComponent (<["tags" := PStr raw]> clientData) with
   | Returns tags =>
       exists decoded,
         tags = VArr ((fun tag => VPrim (PStr tag)) <$> decoded) /\
         Forall2 (fun token tag => decodeURIComponent token = Returns tag) tokens decoded
   | Throws e =>
       exists token, token ∈ tokens /\ decodeURIComponent token = Throws e
   end).
Proof.
  intros pieces tokens. unfold getTags. rewrite field_insert. split.
  - intros ->. split; [reflexivity |]. intros tags [= <-]. apply not_elem_of_nil.
  - intros Hraw.
    split; [by apply (join_split raw ",") |].
    split; [by apply split_free |].
    split; [apply sort_permutation |].
    split; [apply sort_strongly_sorted |].
    destruct (strict_eq_reflect (PStr raw) "") as [[= ?]|_]; [done |].
    fold pieces tokens.
    pose proof (mapM_returns (fun tag => decodeURIComponent tag) tokens) as Hall.
    destruct (mapM _ tokens) as [decoded|e] eqn:E; simpl.
    + split; [split; [intros _; by apply Hall, returns_Returns | intros _; apply returns_Returns] |].
      exists decoded. split; [done | by apply mapM_Returns].
    + split; [| by apply mapM_Throws].
      split; [by intros [? ?] |]. intros H. apply Hall in H. by destruct H.
Qed.

(** The example of the specification; and one in which the order of the
    encoded pieces is not the order of the decoded ones. *)
Example getTags_b_a decodeURIComponent :
  decodeURIComponent "a" = Returns "a" ->
  decodeURIComponent "b" = Returns "b" ->
  getTags decodeURIComponent {[ "tags" := PStr "b,a" ]}
  = Returns (VArr [VPrim (PStr "a"); VPrim (PStr "b")]).
Proof.
  intros Ha Hb. unfold getTags.
  change (field _ "tags") with (PStr "b,a").
  change (strict_eq (PStr "b,a") (PStr "")) with false. cbv iota.
  change (sort (split "b,a" ",")) with ["a"; "b"].
  cbn [mapM]. by rewrite Ha, Hb.
Qed.

Example getTags_encoded_order decodeURIComponent :
  decodeURIComponent "%7A" = Returns "z" ->
  decodeURIComponent "a" = Returns "a" ->
  getTags decodeURIComponent {[ "tags" := PStr "a,%7A" ]}
  = Returns (VArr [VPrim (PStr "z"); VPrim (PStr "a")]).
Proof.
  intros Hz Ha. unfold getTags.
  change (field _ "tags") with (PStr "a,%7A").
  change (strict_eq (PStr "a,%7A") (PStr "")) with false. cbv iota.
  change (sort (split "a,%7A" ",")) with ["%7A"; "a"].
  cbn [mapM]. by rewrite Hz, Ha.
Qed.

(** ** getClientData: the record that is built *)

Section Record.

Variable decodeURIComponent : string -> completion string.
Variable secondsToDuration : float -> string.
Variable domainName_exec : string -> option (list (option string)).
Variable capitalize : string -> string.

Local Abbreviation derive :=
  (derive decodeURIComponent secondsToDuration domainName_exec capitalize).
Local Abbreviation build :=
  (build decodeURIComponent secondsToDuration domainName_exec capitalize).
Local Abbreviation the_forEach_key :=
  (forEach_key decodeURIComponent secondsToDuration domainName_exec capitalize).

Lemma assign_assigned torrentData key keyData σ record :
  objects σ !! torrentData = Some record ->
  assign torrentData key keyData σ =
  Store (<[torrentData := assigned key keyData record]> (objects σ)) (events σ).
Proof.
  intros Hrec. unfold assign, assigned.
  destruct (decide (key = "__proto__")) as [_|_].
  - rewrite insert_id by done. by destruct σ.
  - unfold set_prop. f_equal.
    apply map_eq. intros l. destruct (decide (l = torrentData)) as [->|Hl].
    + by rewrite lookup_alter_eq, lookup_insert_eq, Hrec.
    + by rewrite lookup_alter_ne, lookup_insert_ne.
Qed.

Lemma forEach_key_build clientData torrentData keys : forall σ record,
  objects σ !! torrentData = Some record ->
  the_forEach_key clientData torrentData keys σ =
  ((build clientData keys record).1,
   Store (<[torrentData := (build clientData keys record).2]> (objects σ)) (events σ)).
Proof.
  induction keys as [|key rest IH]; intros σ record Hrec; simpl.
  - rewrite insert_id by done. by destruct σ.
  - unfold processKey. fold (derive clientData key).
    destruct (derive clientData key) as [keyData|e]; simpl.
    + rewrite (assign_assigned _ _ _ _ _ Hrec).
      erewrite IH by (cbn [objects]; apply lookup_insert_eq).
      cbn [objects events]. by rewrite insert_insert_eq.
    + rewrite insert_id by done. by destruct σ.
Qed.

Lemma build_returns clientData keys : forall record,
  (build clientData keys record).1 = Returns () <->
  Forall (fun key => returns (derive clientData key)) keys.
Proof.
  induction keys as [|key rest IH]; intros record; simpl.
  - split; [constructor | done].
  - destruct (derive clientData key) as [keyData|e] eqn:E.
    + rewrite IH. split.
      * intros H. constructor; [by eexists | done].
      * by inversion 1.
    + split; [done |]. inversion 1 as [|? ? [? ?]]. congruence.
Qed.

Lemma build_throws clientData keys e : forall record,
  (build clientData keys record).1 = Throws e ->
  exists key, key ∈ keys /\ derive clientData key = Throws e.
Proof.
  induction keys as [|key rest IH]; intros record; simpl; [done |].
  destruct (derive clientData key) as [keyData|e'] eqn:E.
  - intros H. destruct (IH _ H) as (k & Hk & Hd).
    exists k. split; [by apply list_elem_of_further | done].
  - intros [= ->]. exists key. split; [apply list_elem_of_here | done].
Qed.

(** When the loop ends, the record has a property for every key, holding
    what [derive] computes for it; the properties it had before under
    other names are unchanged. *)
Lemma build_lookup clientData keys : forall record,
  (build clientData keys record).1 = Returns () ->
  forall key,
    (build clientData keys record).2 !! key =
    if decide (key ∈ keys /\ key <> "__proto__")
    then match derive clientData key with
         | Returns keyData => Some keyData
         | Throws _ => None
         end
    else record !! key.
Proof.
  induction keys as [|k rest IH]; intros record H key; cbn [build] in *.
  - destruct (decide (key ∈ [] /\ key <> "__proto__")) as [[Hin _]|_];
      [by apply elem_of_nil in Hin | done].
  - destruct (derive clientData k) as [keyData|e] eqn:E; [| done].
    rewrite (IH _ H).
    destruct (decide (key ∈ rest /\ key <> "__proto__")) as [[Hin Hkey]|Hnin].
    + rewrite decide_True; [done | split; [by apply list_elem_of_further | done]].
    + unfold assigned.
      destruct (decide (key ∈ k :: rest /\ key <> "__proto__")) as [[Hin Hkey]|Hnot].
      * apply elem_of_cons in Hin as [->|Hin]; [| by destruct Hnin].
        rewrite decide_False by done. by rewrite E, lookup_insert_eq.
      * destruct (decide (k = "__proto__")) as [_|Hk]; [done |].
        apply lookup_insert_ne. intros <-. apply Hnot.
        split; [apply list_elem_of_here | done].
Qed.

Local Abbreviation the_getClientData :=
  (getClientData decodeURIComponent secondsToDuration domainName_exec capitalize).

(** [getClientData] in one equation. *)
Lemma getClientData_unfold this clientData opts σ :
  the_getClientData this clientData (Some opts) σ =
  let torrentData := fresh (dom (objects σ)) in
  let log := (events σ ++ if warned opts then [Warn warning] else [])%list in
  let built := build clientData (resolved opts) ∅ in
  let objs := <[torrentData := built.2]> (objects σ) in
  match built.1 with
  | Throws e => (Throws e, Store objs log)
  | Returns _ =>
      let previous := fresh (dom objs) in
      let objs' := <[previous := current_record this objs]> objs in
      (Returns torrentData,
       Store objs' (log ++ [CompareNewTorrentData previous torrentData objs']))
  end.
Proof.
  unfold getClientData, alloc, resolved, warned. cbn zeta. cbn [objects events].
  set (td := fresh (dom (objects σ))).
  assert (Hbuild : forall keys log,
    (let '(keysToProcess, σ0) := (keys, Store (<[td := ∅]> (objects σ)) log) in
     match the_forEach_key clientData td keysToProcess σ0 with
     | (Returns _, σ1) =>
         let '(previous, σ2) := data this σ1 in
         let σ3 := emit (CompareNewTorrentData previous td (objects σ2)) σ2 in
         (Returns td, σ3)
     | (Throws e, σ1) => (Throws e, σ1)
     end) =
    match (build clientData keys ∅).1 with
    | Returns _ =>
        (Returns td,
         Store (<[fresh (dom (<[td := (build clientData keys ∅).2]> (objects σ)))
                  := current_record this (<[td := (build clientData keys ∅).2]> (objects σ))]>
                  (<[td := (build clientData keys ∅).2]> (objects σ)))
           (log ++ [CompareNewTorrentData
                      (fresh (dom (<[td := (build clientData keys ∅).2]> (objects σ)))) td
                      (<[fresh (dom (<[td := (build clientData keys ∅).2]> (objects σ)))
                         := current_record this (<[td := (build clientData keys ∅).2]> (objects σ))]>
                         (<[td := (build clientData keys ∅).2]> (objects σ)))]))
    | Throws e => (Throws e, Store (<[td := (build clientData keys ∅).2]> (objects σ)) log)
    end).
  { intros keys log. cbn beta iota.
    rewrite (forEach_key_build _ _ _ _ ∅) by apply lookup_insert_eq.
    cbn [objects events]. rewrite insert_insert_eq.
    destruct (build clientData keys ∅) as [[[]|e] record]; reflexivity. }
  destruct (requestedData opts) as [p|keys]; cbn [truthy isArray elements andb].
  - rewrite andb_false_r. destruct (ToBoolean p).
    + unfold emit. cbn [objects events]. apply Hbuild.
    + rewrite app_nil_r. destruct σ as [objs evs]. apply Hbuild.
  - rewrite app_nil_r. destruct σ as [objs evs]. apply Hbuild.
Qed.


End Record.

(** ** Which derivers can raise *)





(** ** getClientData: the field list and the keys of the record *)

Lemma default_keys_length : List.length DEFAULT_DATA_KEYS = 30%nat.
Proof. reflexivity. Qed.

(** C9, as stated, fails in four places: the default list has 30 fields,
    not 31; a [requestedData] that is present, not an array and falsy
    gives the default list without any warning; the fall-back to the
    default list does not make construction complete (here [getStatus],
    selected by the default list, raises on the snapshot); and a field of
    the list need not become a key of the record: the assignment under
    the name [__proto__] makes no property. *)
Lemma default_list_counterexample :
  List.length DEFAULT_DATA_KEYS <> 31%nat /\
  (forall decodeURIComponent secondsToDuration domainName_exec,
     exists torrentData σ record,
       getClientData decodeURIComponent secondsToDuration domainName_exec
         capitalize_first 0%nat first_snapshot (Some proto_requested) empty_store
       = (Returns torrentData, σ) /\
       objects σ !! torrentData = Some record /\
       "__proto__" ∈ resolved proto_requested /\
       record !! "__proto__" = None /\
       dom record = {["hash"]}) /\
  (forall decodeURIComponent secondsToDuration domainName_exec capitalize
          this clientData msg,
     Warn msg ∉
     events (getClientData decodeURIComponent secondsToDuration domainName_exec
               capitalize this clientData (Some requested_empty_string) empty_store).2) /\
  (forall decodeURIComponent secondsToDuration domainName_exec now,
     exists σ,
       constructor decodeURIComponent secondsToDuration domainName_exec
         capitalize_first (Some empty_snapshot) (Some requested_single_string)
         now empty_store = (Throws TypeError, σ) /\
       events σ = [Warn warning]).
Proof.
  split; [by rewrite default_keys_length |]. split.
  { intros. eexists _, _, {[ "hash" := VPrim (PStr "c0ffee") ]}.
    split; [vm_compute; reflexivity |].
    split; [vm_compute; reflexivity |].
    split; [apply list_elem_of_further, list_elem_of_here |].
    split; [reflexivity | apply dom_singleton_L]. }
  split.
  - intros. rewrite getClientData_unfold. cbn [warned requested_empty_string requestedData ToBoolean].
    change (negb ("" =? "")%string) with false. cbn zeta iota.
    destruct (build _ _ _ _ _ _ _).1; cbn [snd events empty_store];
      rewrite ?app_nil_l; intros Hin; repeat (apply elem_of_cons in Hin as [Hin|Hin]; [discriminate |]);
      by apply elem_of_nil in Hin.
  - intros. eexists. split; [vm_compute; reflexivity | reflexivity].
Qed.

(** C9 (amended): the default list has 30 fields.  When [requestedData]
    is absent, or any other falsy value, the default list is used and
    nothing is written; when it is an array it is used as it is; when it
    is truthy and not an array the warning is written and the default
    list is used.  The choice never raises: the call returns exactly when
    no deriver selected by the list raises, and then the keys of the
    record are exactly the fields of the resolved list other than
    [__proto__], each holding what its deriver gives or, when the class
    has no deriver of that name, what the snapshot has under the name:
    its own value, or else the function inherited from [Object.prototype]
    when the name is that of one, or else [undefined]. *)
Theorem getClientData_resolved_fields
    (decodeURIComponent : string -> completion string)
    (secondsToDuration : float -> string)
    (domainName_exec : string -> option (list (option string)))
    (capitalize : string -> string)
    (this : loc) (clientData : snapshot) (opts : options) (σ : store) :
  let out := getClientData decodeURIComponent secondsToDuration domainName_exec
               capitalize this clientData (Some opts) σ in
  let derive := derive decodeURIComponent secondsToDuration domainName_exec
                  capitalize clientData in
  List.length DEFAULT_DATA_KEYS = 30%nat /\
  (forall p, requestedData opts = ReqPrim p ->
     resolved opts = DEFAULT_DATA_KEYS /\ warned opts = ToBoolean p) /\
  (forall keys, requestedData opts = ReqArray keys ->
     resolved opts = keys /\ warned opts = false) /\
  (forall msg, Warn msg ∈ events out.2 <->
     Warn msg ∈ events σ \/ (warned opts = true /\ msg = warning)) /\
  (returns out.1 <-> Forall (fun key => returns (derive key)) (resolved opts)) /\
  (forall torrentData, out.1 = Returns torrentData ->
     exists record,
       objects out.2 !! torrentData = Some record /\
       dom record = list_to_set (resolved opts) ∖ {["__proto__"]} /\
       forall key, key ∈ resolved opts -> key <> "__proto__" ->
         exists keyData,
           record !! key = Some keyData /\ derive key = Returns keyData /\
           (method decodeURIComponent secondsToDuration domainName_exec
              ("get" ++ capitalize key) = None ->
            keyData = match clientData !! key with
                      | Some p => VPrim p
                      | None => if decide (key ∈ Object_prototype_functions)
                                then VFunction key else VPrim PUndefined
                      end)).
Proof.
  intros out derive0. subst out derive0. rewrite getClientData_unfold.
  set (built := build _ _ _ _ clientData (resolved opts) ∅).
  pose proof (build_returns decodeURIComponent secondsToDuration domainName_exec
                capitalize clientData (resolved opts) ∅) as Hret.
  pose proof (build_lookup decodeURIComponent secondsToDuration domainName_exec
                capitalize clientData (resolved opts) ∅) as Hlook.
  fold built in Hret, Hlook.
  split; [reflexivity |].
  split; [intros p Hp; unfold resolved, warned; by rewrite Hp |].
  split; [intros keys Hk; unfold resolved, warned; by rewrite Hk |].
  cbn zeta.
  set (objs := <[fresh (dom (objects σ)) := built.2]> (objects σ)).
  assert (Hwarn : forall msg,
            Warn msg ∈ (events σ ++ if warned opts then [Warn warning] else [])%list <->
            Warn msg ∈ events σ \/ (warned opts = true /\ msg = warning)).
  { intros msg. rewrite elem_of_app. destruct (warned opts).
    - rewrite list_elem_of_singleton. split; intros [?|H]; auto.
      + right. split; [done | congruence].
      + right. destruct H as [_ ->]. done.
    - rewrite elem_of_nil. split; intros [?|H]; auto; [done | by destruct H]. }
  destruct (built.1) as [[]|e] eqn:B; cbn [fst snd events objects].
  - split.
    { intros msg. rewrite elem_of_app, Hwarn, list_elem_of_singleton.
      split; [intros [?|?]; [done | discriminate] | auto]. }
    split.
    { split; [intros _; by apply Hret | intros _; apply returns_Returns]. }
    intros torrentData [= <-]. exists built.2.
    assert (Hfresh : fresh (dom objs) <> fresh (dom (objects σ))).
    { intros E. apply (is_fresh (dom objs)). rewrite E. subst objs.
      rewrite dom_insert_L. by apply elem_of_union_l, elem_of_singleton. }
    split.
    { rewrite lookup_insert_ne by done. subst objs. apply lookup_insert_eq. }
    assert (Hall : Forall (fun key => returns (derive decodeURIComponent secondsToDuration
                                           domainName_exec capitalize clientData key))
                     (resolved opts)) by by apply Hret.
    rewrite Forall_forall in Hall.
    split.
    + apply set_eq. intros key.
      rewrite elem_of_dom, elem_of_difference, elem_of_list_to_set, elem_of_singleton,
        (Hlook eq_refl key).
      destruct (decide (key ∈ resolved opts /\ key <> "__proto__")) as [[Hin Hkey]|Hnin].
      * destruct (Hall key Hin) as [v ->]. split; [done | by eexists].
      * rewrite lookup_empty. split; [by intros [? ?] | done].
    + intros key Hin Hkey. destruct (Hall key Hin) as [v Hv]. exists v.
      rewrite (Hlook eq_refl key), decide_True, Hv by done.
      split; [done |]. split; [done |].
      intros Hnone. revert Hv. unfold derive, property. rewrite Hnone.
      rewrite decide_False by done. by intros [= <-].
  - split; [apply Hwarn |].
    split.
    { split; [by intros [? ?] |]. intros H. apply Hret in H. congruence. }
    intros torrentData H. discriminate.
Qed.

(** ** The previous record handed to the notifier *)

Lemma get_prop_insert_ne objs evs l l' o key :
  l <> l' -> get_prop l key (Store (<[l' := o]> objs) evs) = get_prop l key (Store objs evs).
Proof. intros H. unfold get_prop. cbn [objects]. by rewrite lookup_insert_ne. Qed.

Lemma get_prop_set_eq σ l key v o :
  objects σ !! l = Some o -> get_prop l key (set_prop l key v σ) = v.
Proof.
  intros H. unfold get_prop, set_prop. cbn [objects].
  rewrite lookup_alter_eq, H. simpl. by rewrite lookup_insert_eq.
Qed.

Lemma get_prop_set_ne σ l key key' v :
  key <> key' -> get_prop l key (set_prop l key' v σ) = get_prop l key σ.
Proof.
  intros H. unfold get_prop, set_prop. cbn [objects].
  rewrite lookup_alter_eq. destruct (objects σ !! l); simpl; [| done].
  by rewrite lookup_insert_ne.
Qed.

Lemma get_prop_events l key objs evs evs' :
  get_prop l key (Store objs evs) = get_prop l key (Store objs evs').
Proof. reflexivity. Qed.

Lemma get_prop_ref_allocated l key σ r :
  get_prop l key σ = VRef r -> l ∈ dom (objects σ).
Proof.
  unfold get_prop. intros H. apply elem_of_dom.
  destruct (objects σ !! l); [by eexists | discriminate].
Qed.

Lemma fresh_not_allocated (objs : gmap loc object) l :
  l ∈ dom objs -> fresh (dom objs) <> l.
Proof. intros H E. apply (is_fresh (dom objs)). by rewrite E. Qed.

(** C10: the first argument of the notifier is what the getter [data]
    gives while [this.torrentData] is still the old value.  In a first
    construction that property is not assigned yet and the notifier
    receives a new, empty record.  In an update it receives a new object
    with the properties of the prior record: not the prior record itself,
    which stays as it was, and not the record being built; only after the
    call is the new record stored in [this.torrentData].  (An update of a
    torrent that has no record yet is like a first construction.) *)
Theorem notifier_previous_record
    (decodeURIComponent : string -> completion string)
    (secondsToDuration : float -> string)
    (domainName_exec : string -> option (list (option string)))
    (capitalize : string -> string) :
  (forall clientData opts now σ this σ',
     constructor decodeURIComponent secondsToDuration domainName_exec capitalize
       (Some clientData) opts now σ = (Returns this, σ') ->
     exists previous next objs log,
       events σ' = (log ++ [CompareNewTorrentData previous next objs])%list /\
       objs !! previous = Some ∅ /\
       get_prop this "torrentData" (Store objs []) = VPrim PUndefined /\
       get_prop this "torrentData" σ' = VRef next /\
       previous <> next) /\
  (forall this clientData opts now σ old record σ',
     get_prop this "torrentData" σ = VRef old ->
     objects σ !! old = Some record ->
     this <> old ->
     updateData decodeURIComponent secondsToDuration domainName_exec capitalize
       this clientData opts now σ = (Returns (), σ') ->
     exists previous next objs log,
       events σ' = (log ++ [CompareNewTorrentData previous next objs])%list /\
       (previous ∉ dom (objects σ)) /\
       previous <> old /\
       objs !! previous = Some record /\
       objs !! old = Some record /\
       get_prop this "torrentData" (Store objs []) = VRef old /\
       get_prop this "torrentData" σ' = VRef next /\
       next <> old /\
       next <> previous /\
       objects σ' !! old = Some record) /\
  (forall this clientData opts now σ σ',
     this ∈ dom (objects σ) ->
     get_prop this "torrentData" σ = VPrim PUndefined ->
     updateData decodeURIComponent secondsToDuration domainName_exec capitalize
       this clientData opts now σ = (Returns (), σ') ->
     exists previous next objs log,
       events σ' = (log ++ [CompareNewTorrentData previous next objs])%list /\
       (previous ∉ dom (objects σ)) /\
       objs !! previous = Some ∅ /\
       get_prop this "torrentData" σ' = VRef next /\
       next <> previous).
Proof.
  split; [| split].
  - intros clientData opts now σ this σ'. unfold constructor, alloc.
    cbn zeta iota beta. rewrite getClientData_unfold. cbn zeta.
    set (this0 := fresh (dom (objects σ))).
    set (σ1 := set_prop this0 "lastUpdated" _ _).
    assert (Hthis : objects σ1 !! this0 =
                    Some (<["lastUpdated" := timestamp (default no_options opts) now]> ∅)).
    { subst σ1. unfold set_prop. cbn [objects]. by rewrite lookup_alter_eq, lookup_insert_eq. }
    assert (Hdom : this0 ∈ dom (objects σ1)) by (apply elem_of_dom; by eexists).
    set (td := fresh (dom (objects σ1))).
    assert (Htd : td <> this0) by by apply fresh_not_allocated.
    set (built := build _ _ _ _ clientData _ ∅).
    set (objs := <[td := built.2]> (objects σ1)).
    assert (Hcur : current_record this0 objs = ∅).
    { unfold current_record, get_prop. cbn [objects]. subst objs.
      rewrite lookup_insert_ne, Hthis by done. simpl.
      by rewrite lookup_insert_ne, lookup_empty. }
    set (prev := fresh (dom objs)).
    assert (Hprev_td : prev <> td).
    { apply fresh_not_allocated. subst objs. rewrite dom_insert_L.
      by apply elem_of_union_l, elem_of_singleton. }
    assert (Hprev_this : prev <> this0).
    { apply fresh_not_allocated. subst objs. rewrite dom_insert_L.
      by apply elem_of_union_r. }
    destruct built.1 as [[]|e]; [| discriminate].
    intros [= <- <-].
    exists prev, td, (<[prev := current_record this0 objs]> objs), (events σ1 ++
      if warned (default no_options opts) then [Warn warning] else [])%list.
    split; [reflexivity |].
    split; [by rewrite lookup_insert_eq, Hcur |].
    split.
    { unfold get_prop. cbn [objects]. subst objs.
      rewrite !lookup_insert_ne, Hthis by done. simpl.
      by rewrite lookup_insert_ne, lookup_empty. }
    split; [| done].
    eapply get_prop_set_eq. cbn [objects]. subst objs.
    rewrite !lookup_insert_ne by done. exact Hthis.
  - intros this clientData opts now σ old record σ' Hold Hrec Hne.
    unfold updateData. destruct opts as [o|]; [| discriminate].
    rewrite getClientData_unfold. cbn zeta.
    set (σ1 := set_prop this "lastUpdated" _ _).
    pose proof (get_prop_ref_allocated _ _ _ _ Hold) as Hthis_dom.
    assert (Hdom1 : dom (objects σ1) = dom (objects σ)).
    { subst σ1. unfold set_prop. cbn [objects]. apply dom_alter_L. }
    assert (Hold1 : get_prop this "torrentData" σ1 = VRef old).
    { subst σ1. by rewrite get_prop_set_ne. }
    assert (Hrec1 : objects σ1 !! old = Some record).
    { subst σ1. unfold set_prop. cbn [objects]. by rewrite lookup_alter_ne. }
    assert (Hold_dom : old ∈ dom (objects σ1)) by (apply elem_of_dom; by eexists).
    set (td := fresh (dom (objects σ1))).
    assert (Htd_this : td <> this) by (apply fresh_not_allocated; by rewrite Hdom1).
    assert (Htd_old : td <> old) by by apply fresh_not_allocated.
    set (built := build _ _ _ _ clientData _ ∅).
    set (objs := <[td := built.2]> (objects σ1)).
    assert (Hget : get_prop this "torrentData" (Store objs []) = VRef old).
    { subst objs. rewrite get_prop_insert_ne by done.
      destruct σ1 as [objs1 evs1]. exact Hold1. }
    assert (Hcur : current_record this objs = record).
    { unfold current_record. rewrite Hget. subst objs.
      by rewrite lookup_insert_ne, Hrec1. }
    set (prev := fresh (dom objs)).
    assert (Hsub : forall l, l ∈ dom (objects σ1) -> prev <> l).
    { intros l Hl. apply fresh_not_allocated. subst objs. rewrite dom_insert_L.
      by apply elem_of_union_r. }
    assert (Hprev_td : prev <> td).
    { apply fresh_not_allocated. subst objs. rewrite dom_insert_L.
      by apply elem_of_union_l, elem_of_singleton. }
    assert (Hprev_this : prev <> this) by (apply Hsub; by rewrite Hdom1).
    assert (Hprev_old : prev <> old) by by apply Hsub.
    destruct built.1 as [[]|e]; [| discriminate].
    intros [= <-].
    exists prev, td, (<[prev := current_record this objs]> objs), (events σ1 ++
      if warned o then [Warn warning] else [])%list.
    split; [reflexivity |].
    split; [intros Hin; apply (Hsub prev); [by rewrite Hdom1 | done] |].
    split; [done |].
    split; [by rewrite lookup_insert_eq, Hcur |].
    split; [subst objs; by rewrite !lookup_insert_ne |].
    split; [by rewrite get_prop_insert_ne |].
    split.
    { assert (exists inst, objects σ1 !! this = Some inst) as [inst Hinst]
        by (apply elem_of_dom; by rewrite Hdom1).
      eapply get_prop_set_eq. cbn [objects]. subst objs.
      rewrite !lookup_insert_ne by done. exact Hinst. }
    split; [done |]. split; [done |].
    unfold set_prop. cbn [objects]. rewrite lookup_alter_ne by done.
    subst objs. by rewrite !lookup_insert_ne.
  - intros this clientData opts now σ σ' Hthis_dom Hundef.
    unfold updateData. destruct opts as [o|]; [| discriminate].
    rewrite getClientData_unfold. cbn zeta.
    set (σ1 := set_prop this "lastUpdated" _ _).
    assert (Hdom1 : dom (objects σ1) = dom (objects σ)).
    { subst σ1. unfold set_prop. cbn [objects]. apply dom_alter_L. }
    assert (Hundef1 : get_prop this "torrentData" σ1 = VPrim PUndefined).
    { subst σ1. by rewrite get_prop_set_ne. }
    set (td := fresh (dom (objects σ1))).
    assert (Htd_this : td <> this) by (apply fresh_not_allocated; by rewrite Hdom1).
    set (built := build _ _ _ _ clientData _ ∅).
    set (objs := <[td := built.2]> (objects σ1)).
    assert (Hcur : current_record this objs = ∅).
    { unfold current_record. subst objs. rewrite get_prop_insert_ne by done.
      destruct σ1 as [objs1 evs1]. cbn [objects].
      rewrite (get_prop_events _ _ _ _ evs1), Hundef1. reflexivity. }
    set (prev := fresh (dom objs)).
    assert (Hsub : forall l, l ∈ dom (objects σ1) -> prev <> l).
    { intros l Hl. apply fresh_not_allocated. subst objs. rewrite dom_insert_L.
      by apply elem_of_union_r. }
    assert (Hprev_td : prev <> td).
    { apply fresh_not_allocated. subst objs. rewrite dom_insert_L.
      by apply elem_of_union_l, elem_of_singleton. }
    assert (Hprev_this : prev <> this) by (apply Hsub; by rewrite Hdom1).
    destruct built.1 as [[]|e]; [| discriminate].
    intros [= <-].
    exists prev, td, (<[prev := current_record this objs]> objs), (events σ1 ++
      if warned o then [Warn warning] else [])%list.
    split; [reflexivity |].
    split; [intros Hin; apply (Hsub prev); [by rewrite Hdom1 | done] |].
    split; [by rewrite lookup_insert_eq, Hcur |].
    split; [| done].
    assert (exists inst, objects σ1 !! this = Some inst) as [inst Hinst]
      by (apply elem_of_dom; by rewrite Hdom1).
    eapply get_prop_set_eq. cbn [objects]. subst objs.
    rewrite !lookup_insert_ne by done. exact Hinst.
Qed.

Example run_constructor_returns :
  run_constructor.1 = Returns 0%nat /\
  objects run_constructor.2 !! 1%nat =
  Some {[ "hash" := VPrim (PStr "c0ffee");
          "status" := VArr [torrentStatusMap.downloading; torrentStatusMap.active] ]} /\
  exists objs,
    events run_constructor.2 = [CompareNewTorrentData 2%nat 1%nat objs] /\
    objs !! 2%nat = Some ∅ /\
    get_prop 0%nat "torrentData" (Store objs []) = VPrim PUndefined /\
    get_prop 0%nat "torrentData" run_constructor.2 = VRef 1%nat.
Proof.
  split; [by vm_compute |]. split; [by vm_compute |].
  eexists. split; [vm_compute; reflexivity |]. by vm_compute.
Qed.

Lemma notifier_previous_record_witness :
  exists previous next objs log,
    events run_updateData.2 = (log ++ [CompareNewTorrentData previous next objs])%list /\
    (previous ∉ dom (objects run_constructor.2)) /\
    previous <> 1%nat /\
    objs !! previous = Some (default ∅ (objects run_constructor.2 !! 1%nat)) /\
    objs !! 1%nat = Some (default ∅ (objects run_constructor.2 !! 1%nat)) /\
    get_prop 0%nat "torrentData" (Store objs []) = VRef 1%nat /\
    get_prop 0%nat "torrentData" run_updateData.2 = VRef next /\
    next <> 1%nat /\
    next <> previous /\
    objects run_updateData.2 !! 1%nat = Some (default ∅ (objects run_constructor.2 !! 1%nat)).
Proof.
  apply (proj1 (proj2 (notifier_previous_record (fun _ => Throws URIError) (fun _ => "")
                         (fun _ => None) capitalize_first))
           0%nat second_snapshot (Some hash_and_status) 0%float run_constructor.2
           1%nat (default ∅ (objects run_constructor.2 !! 1%nat)) run_updateData.2).
  - vm_compute. reflexivity.
  - vm_compute. reflexivity.
  - discriminate.
  - vm_compute. reflexivity.
Defined.

(* ===================================================================== *)
(** * Part 6: further properties of the code                              *)
(* ===================================================================== *)

(** ** cleanUpDate, getAdded and getCreationDate *)

Lemma trimStart_starts_black s : starts_black (trimStart s).
Proof.
  induction s as [|c s IH]; simpl; [done |].
  destruct (is_white c) eqn:E; [done | done].
Qed.

Lemma trimStart_fixed s : starts_black s -> trimStart s = s.
Proof. destruct s as [|c s]; simpl; [done |]. by intros ->. Qed.

Lemma trimEnd_ends_black s : ends_black (trimEnd s).
Proof.
  induction s as [|c s IH]; simpl; [done |].
  destruct (trimEnd s) as [|c' t] eqn:E.
  - by destruct (is_white c) eqn:W.
  - exact IH.
Qed.

Lemma trimEnd_fixed s : ends_black s -> trimEnd s = s.
Proof.
  induction s as [|c s IH]; [done |].
  intros H. cbn [trimEnd]. destruct s as [|c' s'].
  - simpl in *. by rewrite H.
  - rewrite IH by exact H. reflexivity.
Qed.

Lemma trimEnd_starts_black s : starts_black s -> starts_black (trimEnd s).
Proof.
  destruct s as [|c s]; simpl; [done |]. intros H.
  destruct (trimEnd s); [by rewrite H | done].
Qed.

Lemma trim_starts_black s : starts_black (trim s).
Proof. apply trimEnd_starts_black, trimStart_starts_black. Qed.

Lemma trim_ends_black s : ends_black (trim s).
Proof. apply trimEnd_ends_black. Qed.

Lemma trim_trim s : trim (trim s) = trim s.
Proof.
  unfold trim at 1. rewrite trimStart_fixed by apply trim_starts_black.
  apply trimEnd_fixed, trim_ends_black.
Qed.

(** X1: a date that [cleanUpDate] returns is a string in normal form: it
    is never the string 0, it neither starts nor ends with white space,
    and cleaning it again changes nothing, also when it is stored back in
    the snapshot and read by [getAdded] or [getCreationDate].  It is the
    empty string exactly when the raw value is falsy or is a string that
    holds, white space apart, nothing or a single 0. *)
Theorem cleanUpDate_normal_form (dirtyDate : prim) (date : value) :
  cleanUpDate dirtyDate = Returns date ->
  exists s,
    date = VPrim (PStr s) /\
    s <> "0" /\
    starts_black s /\ ends_black s /\
    cleanUpDate (PStr s) = Returns date /\
    (forall clientData : snapshot,
       getAdded (<["added" := PStr s]> clientData) = Returns date /\
       getCreationDate (<["creationDate" := PStr s]> clientData) = Returns date) /\
    (s = "" <->
     ToBoolean dirtyDate = false \/
     exists raw, dirtyDate = PStr raw /\ (trim raw = "" \/ trim raw = "0")).
Proof.
  intros H.
  assert (exists s,
    date = VPrim (PStr s) /\ s <> "0" /\ starts_black s /\ ends_black s /\
    cleanUpDate (PStr s) = Returns date /\
    (s = "" <->
     ToBoolean dirtyDate = false \/
     exists raw, dirtyDate = PStr raw /\ (trim raw = "" \/ trim raw = "0")))
    as (s & H1 & H2 & H3 & H4 & H5 & H6).
  { revert H. unfold cleanUpDate. destruct (ToBoolean dirtyDate) eqn:T; simpl.
    - destruct dirtyDate as [| | b | x | raw]; try discriminate.
      simpl. destruct (String.eqb_spec (trim raw) "0") as [E|E].
      + intros [= <-]. exists "". repeat split; try done.
        intros _. right. exists raw. by auto.
      + intros [= <-]. exists (trim raw).
        split; [done |]. split; [done |].
        split; [apply trim_starts_black |]. split; [apply trim_ends_black |].
        split.
        * destruct (trim raw) as [|c r] eqn:Et; [done |]. simpl.
          rewrite <- Et, trim_trim.
          destruct (String.eqb_spec (trim raw) "0"); [congruence | reflexivity].
        * split; [intros H; right; exists raw; by auto |].
          intros [H | (raw' & [= <-] & [H | H])]; [simpl in *; congruence | done | done].
    - intros [= <-]. exists "". repeat split; try done. intros _. by left. }
  exists s. repeat split; try done.
  - unfold getAdded. by rewrite field_insert.
  - unfold getCreationDate. by rewrite field_insert.
  - by apply H6.
  - by apply H6.
Qed.

Lemma cleanUpDate_normal_form_witness :
  exists s,
    VPrim (PStr "2016-08-01") = VPrim (PStr s) /\
    s <> "0" /\
    starts_black s /\ ends_black s /\
    cleanUpDate (PStr s) = Returns (VPrim (PStr "2016-08-01")) /\
    (forall clientData : snapshot,
       getAdded (<["added" := PStr s]> clientData) = Returns (VPrim (PStr "2016-08-01")) /\
       getCreationDate (<["creationDate" := PStr s]> clientData)
       = Returns (VPrim (PStr "2016-08-01"))) /\
    (s = "" <->
     ToBoolean (PStr "  2016-08-01 ") = false \/
     exists raw, PStr "  2016-08-01 " = PStr raw /\ (trim raw = "" \/ trim raw = "0")).
Proof.
  apply (cleanUpDate_normal_form (PStr "  2016-08-01 ") (VPrim (PStr "2016-08-01"))).
  reflexivity.
Defined.

(** ** getStatus: the error tag, and the tags as a set *)

Lemma classify_cases isHashChecking isComplete isOpen state :
  classify isHashChecking isComplete isOpen state [] ∈
  [ [torrentStatusMap.checking];
    [torrentStatusMap.complete; torrentStatusMap.seeding];
    [torrentStatusMap.paused];
    [torrentStatusMap.stopped; torrentStatusMap.complete];
    [torrentStatusMap.downloading];
    [torrentStatusMap.stopped];
    [] ].
Proof.
  unfold classify, push.
  repeat match goal with
         | |- context [if ?b then _ else _] => destruct b
         end; cbn [app]; rewrite !elem_of_cons; tauto.
Qed.

Lemma activity_cases uploadRate downloadRate :
  activity uploadRate downloadRate = torrentStatusMap.inactive \/
  activity uploadRate downloadRate = torrentStatusMap.active.
Proof. unfold activity. destruct (_ && _); tauto. Qed.

Ltac tag_lists H :=
  rewrite ?elem_of_cons, ?elem_of_nil in H;
  repeat destruct H as [H | H]; try done; subst.

(** X2: the list [getStatus] returns holds the tag [error] exactly when
    the message is a string that is not empty; the tag then stands last
    but one, after the tags of the classification, none of which is
    [error], and before the activity tag. *)
Theorem getStatus_error_tag (clientData : snapshot) (torrentStatus : list value) :
  getStatus clientData = Returns (VArr torrentStatus) ->
  (torrentStatusMap.error ∈ torrentStatus <->
   exists c m, field clientData "message" = PStr (String c m)) /\
  (torrentStatusMap.error ∈ torrentStatus ->
   exists primary,
     torrentStatus = (primary ++ [torrentStatusMap.error;
                         activity (field clientData "uploadRate")
                           (field clientData "downloadRate")])%list /\
     torrentStatusMap.error ∉ primary).
Proof.
  rewrite getStatus_unfold.
  pose proof (classify_cases (field clientData "isHashChecking")
                (field clientData "isComplete") (field clientData "isOpen")
                (field clientData "state")) as Hc.
  revert Hc. generalize (classify (field clientData "isHashChecking")
    (field clientData "isComplete") (field clientData "isOpen")
    (field clientData "state") []). intros primary Hc.
  assert (Hprimary : torrentStatusMap.error ∉ primary).
  { intros Hin. tag_lists Hc; tag_lists Hin. }
  assert (Hact : torrentStatusMap.error <>
                 activity (field clientData "uploadRate") (field clientData "downloadRate")).
  { by destruct (activity_cases (field clientData "uploadRate")
                   (field clientData "downloadRate")) as [-> | ->]. }
  destruct (field clientData "message") as [| | b | x | [|c m]]; try discriminate;
    intros [= <-]; rewrite ?app_nil_l.
  1-3: split; [split; [| by intros (? & ? & ?)] |];
       rewrite elem_of_app, list_elem_of_singleton; intros [? | ?]; done.
  split.
  - split; [intros _; by eexists _, _ |]. intros _.
    rewrite elem_of_app, elem_of_cons. right. left. reflexivity.
  - intros _. exists primary. split; [reflexivity | done].
Qed.

Lemma getStatus_error_tag_witness :
  (torrentStatusMap.error ∈
     [torrentStatusMap.stopped; torrentStatusMap.complete;
      torrentStatusMap.error; torrentStatusMap.inactive] <->
   exists c m, field failed_snapshot "message" = PStr (String c m)) /\
  (torrentStatusMap.error ∈
     [torrentStatusMap.stopped; torrentStatusMap.complete;
      torrentStatusMap.error; torrentStatusMap.inactive] ->
   exists primary,
     [torrentStatusMap.stopped; torrentStatusMap.complete;
      torrentStatusMap.error; torrentStatusMap.inactive] =
     (primary ++ [torrentStatusMap.error;
                  activity (field failed_snapshot "uploadRate")
                    (field failed_snapshot "downloadRate")])%list /\
     torrentStatusMap.error ∉ primary).
Proof.
  apply (getStatus_error_tag failed_snapshot). vm_compute. reflexivity.
Defined.

(** X3: the list [getStatus] returns has no tag twice, and between one
    and four tags. *)
Theorem getStatus_distinct_tags (clientData : snapshot) (torrentStatus : list value) :
  getStatus clientData = Returns (VArr torrentStatus) ->
  NoDup torrentStatus /\ (1 <= List.length torrentStatus <= 4)%nat.
Proof.
  rewrite getStatus_unfold.
  pose proof (classify_cases (field clientData "isHashChecking")
                (field clientData "isComplete") (field clientData "isOpen")
                (field clientData "state")) as Hc.
  revert Hc. generalize (classify (field clientData "isHashChecking")
    (field clientData "isComplete") (field clientData "isOpen")
    (field clientData "state") []). intros primary Hc.
  assert (forall err, err = [] \/ err = [torrentStatusMap.error] ->
            NoDup (primary ++ err ++ [activity (field clientData "uploadRate")
                                        (field clientData "downloadRate")]) /\
            (1 <= List.length (primary ++ err ++
                                 [activity (field clientData "uploadRate")
                                    (field clientData "downloadRate")]) <= 4)%nat) as H.
  { intros err Herr.
    destruct (activity_cases (field clientData "uploadRate")
                (field clientData "downloadRate")) as [-> | ->];
      destruct Herr as [-> | ->]; tag_lists Hc; cbn [app List.length];
      (split; [| lia]);
      repeat (apply NoDup_cons_2;
              [rewrite ?elem_of_cons, elem_of_nil; intuition discriminate |]);
      apply NoDup_nil_2. }
  destruct (field clientData "message") as [| | b | x | [|c m]]; try discriminate;
    intros [= <-].
  1-3: apply (H []); by left.
  apply (H [torrentStatusMap.error]); by right.
Qed.

Lemma getStatus_distinct_tags_witness :
  NoDup [torrentStatusMap.stopped; torrentStatusMap.complete;
         torrentStatusMap.error; torrentStatusMap.inactive] /\
  (1 <= List.length [torrentStatusMap.stopped; torrentStatusMap.complete;
                     torrentStatusMap.error; torrentStatusMap.inactive] <= 4)%nat.
Proof.
  apply (getStatus_distinct_tags failed_snapshot). vm_compute. reflexivity.
Defined.

(** ** getPeerCount: what the count never holds *)

Lemma getPeerCount_index s :
  getPeerCount (ArgPrim (PStr s)) =
  Returns (VPrim (PStr match String.index 0 delimiter s with
                       | Some m => String.substring 0 m s
                       | None => ""
                       end)).
Proof.
  unfold getPeerCount, indexOf. fold delimiter.
  destruct (String.index 0 delimiter s) as [m|] eqn:E.
  - pose proof (index_correct1 _ _ _ _ E) as H1.
    destruct (substring_occurrence m delimiter s ltac:(discriminate) H1)
      as (post & Hs & Hl).
    rewrite substr_0_nat; [reflexivity |].
    rewrite Hs, length_append, Hl. lia.
  - by rewrite substr_0_negative.
Qed.

Lemma index_none_iff s :
  String.index 0 delimiter s = None <-> forall a b, s <> (a ++ delimiter ++ b)%string.
Proof.
  split.
  - intros E a b Hab.
    apply (index_correct3 0 (String.length a) _ _ E); [discriminate | lia |].
    rewrite Hab. apply substring_app_middle.
  - intros H. destruct (String.index 0 delimiter s) as [m|] eqn:E; [| reflexivity].
    pose proof (index_correct1 _ _ _ _ E) as H1.
    destruct (substring_occurrence m delimiter s ltac:(discriminate) H1) as (post & Hs & _).
    by destruct (H _ _ Hs).
Qed.

(** X4: on every string [getPeerCount] returns a prefix of it in which
    the delimiter does not occur; so the method applied to its own result
    gives the empty string. *)
Theorem getPeerCount_no_delimiter (s : string) :
  exists count rest,
    getPeerCount (ArgPrim (PStr s)) = Returns (VPrim (PStr count)) /\
    s = (count ++ rest)%string /\
    (forall a b, count <> (a ++ delimiter ++ b)%string) /\
    getPeerCount (ArgPrim (PStr count)) = Returns (VPrim (PStr "")).
Proof.
  assert (forall count, (forall a b, count <> (a ++ delimiter ++ b)%string) ->
            getPeerCount (ArgPrim (PStr count)) = Returns (VPrim (PStr ""))) as Hagain.
  { intros count H. rewrite getPeerCount_index.
    by rewrite (proj2 (index_none_iff count) H). }
  rewrite getPeerCount_index.
  destruct (String.index 0 delimiter s) as [m|] eqn:E.
  - pose proof (index_correct1 _ _ _ _ E) as H1.
    destruct (substring_occurrence m delimiter s ltac:(discriminate) H1)
      as (post & Hs & Hl).
    assert (Hno : forall a b, String.substring 0 m s <> (a ++ delimiter ++ b)%string).
    { intros a b Hab.
      apply (index_correct2 _ _ _ _ E (String.length a)); [lia | |].
      - rewrite <- Hl, Hab, !length_append. simpl. lia.
      - rewrite Hs, Hab, !append_assoc. apply substring_app_middle. }
    exists (String.substring 0 m s), (delimiter ++ post)%string.
    split; [reflexivity |]. split; [exact Hs |]. split; [exact Hno | by apply Hagain].
  - exists "", s. split; [reflexivity |]. split; [reflexivity |].
    split; [| by apply Hagain; intros [|] ?].
    by intros [|] ?.
Qed.

(** ** getTags: one tag for every piece *)

Lemma split_from_char c s : forall cur,
  List.length (split_from (String c "") 0 cur s) = S (occurrences c s).
Proof.
  induction s as [|d s IH]; intros cur; [reflexivity |].
  cbn [split_from occurrences String.length String.prefix].
  destruct (Ascii.eqb_spec c d) as [->|Hne].
  - destruct (ascii_dec d d) as [_|]; [| done].
    replace (String.prefix "" s) with true by by destruct s.
    cbn [List.length Nat.sub]. by rewrite IH.
  - destruct (ascii_dec c d) as [|_]; [done |]. by rewrite IH.
Qed.

(** X5: when [getTags] returns, the list has no tag for the empty string
    and otherwise one tag more than the string has commas: no piece is
    dropped, not an empty one and not one that occurs twice. *)
Theorem getTags_one_per_comma
    (decodeURIComponent : string -> completion string)
    (clientData : snapshot) (raw : string) (result : list value) :
  getTags decodeURIComponent (<["tags" := PStr raw]> clientData) = Returns (VArr result) ->
  List.length result = if (raw =? "")%string then 0%nat else S (occurrences "," raw).
Proof.
  unfold getTags. rewrite field_insert. cbn [strict_eq].
  destruct (raw =? "")%string; [by intros [= <-] |].
  destruct (mapM _ _) as [decoded|e] eqn:E; simpl; [| discriminate].
  intros [= <-]. apply mapM_Returns, Forall2_length in E.
  rewrite length_fmap, <- E.
  rewrite (Permutation_length (sort_permutation _)).
  apply split_from_char.
Qed.

Lemma getTags_one_per_comma_witness :
  List.length [VPrim (PStr ""); VPrim (PStr "a"); VPrim (PStr "b")] =
  if ("b,,a" =? "")%string then 0%nat else S (occurrences "," "b,,a").
Proof.
  apply (getTags_one_per_comma (fun tag => Returns tag) ∅ "b,,a").
  vm_compute. reflexivity.
Defined.

(** ** getTrackers: every domain is the end of a hostname *)

Lemma join_drop (sep : string) (l : list string) : forall n,
  (n < List.length l)%nat ->
  exists pre,
    join l sep = (pre ++ join (drop n l) sep)%string /\
    (pre = "" \/ exists p, pre = (p ++ sep)%string).
Proof.
  unfold join. induction l as [|x l IH]; intros n Hn; [simpl in Hn; lia |].
  destruct n as [|n].
  - exists "". split; [reflexivity | by left].
  - simpl in Hn. destruct (IH n ltac:(lia)) as (pre & Hpre & Hend).
    assert (l <> []) as Hl by (intros ->; simpl in Hn; lia).
    rewrite concat_cons by done. cbn [drop]. rewrite Hpre.
    exists (x ++ sep ++ pre)%string. split; [by rewrite !append_assoc |].
    right. destruct Hend as [-> | (p & ->)].
    + exists x. by rewrite append_empty_r.
    + exists (x ++ sep ++ p)%string. by rewrite !append_assoc.
Qed.

Lemma kept_positive labels : (0 < kept labels)%nat.
Proof.
  unfold kept. destruct (labels !! _); [| lia]. destruct (_ && _); lia.
Qed.

Lemma registrable_suffix host :
  exists pre,
    host = (pre ++ registrable host)%string /\
    (pre = "" \/ exists p, pre = (p ++ ".")%string).
Proof.
  unfold registrable, slice_last.
  set (labels := split host ".").
  assert (labels <> []) as Hne by apply split_from_nonempty.
  destruct (join_drop "." labels (List.length labels - kept labels)) as (pre & Hpre & Hend).
  { pose proof (kept_positive labels).
    assert (List.length labels <> 0%nat) by (intros H0; by apply Hne, nil_length_inv).
    lia. }
  exists pre. split; [| exact Hend].
  rewrite <- Hpre. subst labels. by rewrite join_split.
Qed.

Lemma length_omap {A B} (f : A -> option B) l :
  (List.length (omap f l) <= List.length l)%nat.
Proof. induction l as [|a l IH]; csimpl; [lia |]. destruct (f a); csimpl; lia. Qed.

(** X6: [getTrackers] returns at most one domain for an entry of the raw
    string, and every domain is the end of the hostname found in one of
    the entries, cut off at the start of a label: what stands before it in
    the hostname is nothing or ends with a dot. *)
Theorem getTrackers_suffixes
    (domainName_exec : string -> option (list (option string)))
    (clientData : snapshot) (raw : string) :
  exists domains,
    getTrackers domainName_exec (<["trackers" := PStr raw]> clientData) =
    Returns (VArr ((fun domain => VPrim (PStr domain)) <$> domains)) /\
    (List.length domains <= List.length (split raw delimiter))%nat /\
    Forall (fun domain =>
              exists tracker host pre,
                tracker ∈ split raw delimiter /\
                hostname domainName_exec tracker = Some host /\
                host = (pre ++ domain)%string /\
                (pre = "" \/ exists p, pre = (p ++ ".")%string))
           domains.
Proof.
  rewrite getTrackers_unfold.
  exists (registrable <$> omap (hostname domainName_exec) (split raw delimiter)).
  split; [by rewrite <- list_fmap_compose |].
  split; [rewrite length_fmap; apply length_omap |].
  apply Forall_fmap, Forall_forall. intros host Hhost.
  apply list_elem_of_omap in Hhost as (tracker & Hin & Hhost).
  destruct (registrable_suffix host) as (pre & Hpre & Hend).
  by exists tracker, host, pre.
Qed.

(** ** getPercentComplete: a size of zero *)

Lemma zero_divisor (x z : float) :
  (z =? 0)%float = true ->
  Prim2SF (x / z * 100)%float = S754_nan \/
  exists s, Prim2SF (x / z * 100)%float = S754_infinity s.
Proof.
  rewrite FloatAxioms.eqb_spec, Prim2SF_0, FloatAxioms.mul_spec, FloatAxioms.div_spec,
    Prim2SF_100.
  destruct (Prim2SF z) as [sz|[]| |[] ? ?]; try discriminate. intros _.
  destruct (Prim2SF x) as [sx|sx| |sx m e]; cbn; eauto.
Qed.

(** X7: when [sizeBytes] reads as zero, [getPercentComplete] does not
    raise and does not round: it returns the quotient as it is, which is
    NaN or an infinity, never a finite number. *)
Theorem getPercentComplete_zero_size (clientData : snapshot) :
  (ToNumber (field clientData "sizeBytes") =? 0)%float = true ->
  exists p,
    getPercentComplete clientData = Returns (VPrim (PNum p)) /\
    p = (ToNumber (field clientData "bytesDone")
         / ToNumber (field clientData "sizeBytes") * 100)%float /\
    (is_nan p = true \/ is_infinity p = true).
Proof.
  intros Hz. unfold getPercentComplete.
  set (p := (_ / _ * 100)%float).
  pose proof (zero_divisor (ToNumber (field clientData "bytesDone")) _ Hz) as Hp.
  fold p in Hp.
  assert (Hcases : ((p <=? 0)%float = true \/ (p =? 10)%float = true \/
                    (100 <=? p)%float = true \/ is_nan p = true) /\
                   (is_nan p = true \/ is_infinity p = true)).
  { unfold is_nan, is_infinity.
    rewrite !FloatAxioms.leb_spec, !FloatAxioms.eqb_spec, FloatAxioms.abs_spec,
      Prim2SF_0, Prim2SF_10, Prim2SF_100.
    destruct Hp as [-> | [[] ->]]; cbn; tauto. }
  destruct Hcases as [Hrange Hinf].
  exists p. split; [| done].
  apply unrounded_range in Hrange as [-> ->]. reflexivity.
Qed.

Lemma getPercentComplete_zero_size_witness :
  exists p,
    getPercentComplete (progress "7" "0") = Returns (VPrim (PNum p)) /\
    p = (ToNumber (field (progress "7" "0") "bytesDone")
         / ToNumber (field (progress "7" "0") "sizeBytes") * 100)%float /\
    (is_nan p = true \/ is_infinity p = true).
Proof.
  apply (getPercentComplete_zero_size (progress "7" "0")). vm_compute. reflexivity.
Defined.

(** ** The constructor, updateData and the getters on the store *)

Section Instance.

Variable decodeURIComponent : string -> completion string.
Variable secondsToDuration : float -> string.
Variable domainName_exec : string -> option (list (option string)).
Variable capitalize : string -> string.

Local Abbreviation derive :=
  (derive decodeURIComponent secondsToDuration domainName_exec capitalize).
Local Abbreviation build :=
  (build decodeURIComponent secondsToDuration domainName_exec capitalize).
Local Abbreviation recorded :=
  (recorded decodeURIComponent secondsToDuration domainName_exec capitalize).
Local Abbreviation the_getClientData :=
  (getClientData decodeURIComponent secondsToDuration domainName_exec capitalize).
Local Abbreviation the_constructor :=
  (constructor decodeURIComponent secondsToDuration domainName_exec capitalize).
Local Abbreviation the_updateData :=
  (updateData decodeURIComponent secondsToDuration domainName_exec capitalize).

(** [updateData] in one equation. *)
Lemma updateData_unfold this clientData opts now σ :
  the_updateData this clientData (Some opts) now σ =
  let objs1 := alter (insert "lastUpdated" (timestamp opts now)) this (objects σ) in
  let torrentData := fresh (dom objs1) in
  let log := (events σ ++ if warned opts then [Warn warning] else [])%list in
  let built := build clientData (resolved opts) ∅ in
  let objs := <[torrentData := built.2]> objs1 in
  match built.1 with
  | Throws e => (Throws e, Store objs log)
  | Returns _ =>
      let previous := fresh (dom objs) in
      let objs' := <[previous := current_record this objs]> objs in
      (Returns (),
       Store (alter (insert "torrentData" (VRef torrentData)) this objs')
         (log ++ [CompareNewTorrentData previous torrentData objs']))
  end.
Proof.
  unfold updateData. rewrite getClientData_unfold. cbn zeta.
  unfold set_prop at 1 2 3 4 5 6. cbn [objects events].
  destruct (build clientData (resolved opts) ∅).1 as [[]|e]; reflexivity.
Qed.

(** A construction is an allocation followed by an update. *)
Lemma constructor_updateData clientData opts now σ :
  the_constructor (Some clientData) opts now σ =
  let this := fresh (dom (objects σ)) in
  let r := the_updateData this clientData (Some (default no_options opts)) now
             (Store (<[this := ∅]> (objects σ)) (events σ)) in
  (match r.1 with Returns _ => Returns this | Throws e => Throws e end, r.2).
Proof.
  unfold constructor, updateData, alloc. cbn zeta iota beta.
  destruct (the_getClientData _ _ _ _) as [[torrentData|e] σ']; reflexivity.
Qed.

Lemma updateData_returns this clientData opts now σ σ' :
  this ∈ dom (objects σ) ->
  the_updateData this clientData (Some opts) now σ = (Returns (), σ') ->
  exists torrentData previous objs,
    (torrentData ∉ dom (objects σ)) /\ (previous ∉ dom (objects σ)) /\
    torrentData <> previous /\
    (build clientData (resolved opts) ∅).1 = Returns () /\
    objects σ' !! torrentData = Some (build clientData (resolved opts) ∅).2 /\
    is_Some (objects σ' !! previous) /\
    objects σ' !! this =
      (fun inst => <["torrentData" := VRef torrentData]>
                     (<["lastUpdated" := timestamp opts now]> inst))
        <$> objects σ !! this /\
    (forall l, l <> this -> l <> torrentData -> l <> previous ->
               objects σ' !! l = objects σ !! l) /\
    events σ' = (events σ ++ (if warned opts then [Warn warning] else [])
                 ++ [CompareNewTorrentData previous torrentData objs])%list.
Proof.
  intros Hthis. rewrite updateData_unfold. cbn zeta.
  set (objs1 := alter _ this (objects σ)).
  assert (Hdom1 : dom objs1 = dom (objects σ)) by apply dom_alter_L.
  set (td := fresh (dom objs1)).
  assert (Htd : td ∉ dom (objects σ)) by (rewrite <- Hdom1; apply is_fresh).
  set (built := build clientData (resolved opts) ∅).
  set (objs := <[td := built.2]> objs1).
  set (prev := fresh (dom objs)).
  assert (Hprev : prev ∉ dom objs) by apply is_fresh.
  assert (Hdom : dom objs = {[td]} ∪ dom (objects σ))
    by (subst objs; by rewrite dom_insert_L, Hdom1).
  rewrite Hdom in Hprev.
  assert (Hprev_td : td <> prev).
  { intros E. apply Hprev. rewrite <- E. by apply elem_of_union_l, elem_of_singleton. }
  assert (Hprev_dom : prev ∉ dom (objects σ)).
  { intros Hin. apply Hprev. by apply elem_of_union_r. }
  assert (Hthis_td : this <> td) by (intros E; apply Htd; by rewrite <- E).
  assert (Hthis_prev : this <> prev) by (intros E; apply Hprev_dom; by rewrite <- E).
  destruct built.1 as [[]|e]; [| discriminate]. intros [= <-]. cbn [objects events].
  exists td, prev, (<[prev := current_record this objs]> objs).
  split; [done |]. split; [done |]. split; [done |]. split; [done |].
  split.
  { rewrite lookup_alter_ne, lookup_insert_ne by done. subst objs.
    by rewrite lookup_insert_eq. }
  split.
  { rewrite lookup_alter_ne, lookup_insert_eq by done. by eexists. }
  split.
  { rewrite lookup_alter_eq, lookup_insert_ne by done. subst objs objs1.
    rewrite lookup_insert_ne, lookup_alter_eq by done.
    by destruct (objects σ !! this). }
  split; [| by rewrite <- app_assoc].
  intros l H1 H2 H3. rewrite lookup_alter_ne, lookup_insert_ne by done. subst objs objs1.
  by rewrite lookup_insert_ne, lookup_alter_ne.
Qed.

Lemma updateData_throws this clientData opts now σ e σ' :
  this ∈ dom (objects σ) ->
  the_updateData this clientData (Some opts) now σ = (Throws e, σ') ->
  exists torrentData,
    (torrentData ∉ dom (objects σ)) /\
    (build clientData (resolved opts) ∅).1 = Throws e /\
    objects σ' !! this = <["lastUpdated" := timestamp opts now]> <$> objects σ !! this /\
    (forall l, l <> this -> l <> torrentData -> objects σ' !! l = objects σ !! l) /\
    events σ' = (events σ ++ if warned opts then [Warn warning] else [])%list.
Proof.
  intros Hthis. rewrite updateData_unfold. cbn zeta.
  set (objs1 := alter _ this (objects σ)).
  assert (Hdom1 : dom objs1 = dom (objects σ)) by apply dom_alter_L.
  set (td := fresh (dom objs1)).
  assert (Htd : td ∉ dom (objects σ)) by (rewrite <- Hdom1; apply is_fresh).
  assert (Hthis_td : this <> td) by (intros E; apply Htd; by rewrite <- E).
  destruct (build clientData (resolved opts) ∅).1 as [[]|e']; [discriminate |].
  intros [= <- <-]. cbn [objects events]. exists td.
  split; [done |]. split; [done |]. split.
  { subst objs1. by rewrite lookup_insert_ne, lookup_alter_eq. }
  split; [| done].
  intros l H1 H2. subst objs1. by rewrite lookup_insert_ne, lookup_alter_ne.
Qed.

Lemma get_prop_lookup l key σ o :
  objects σ !! l = Some o -> get_prop l key σ = default (VPrim PUndefined) (o !! key).
Proof. intros H. unfold get_prop. by rewrite H. Qed.

Lemma notifications_app log1 log2 :
  notifications (log1 ++ log2) = (notifications log1 + notifications log2)%nat.
Proof. induction log1 as [|[] log1 IH]; simpl; lia. Qed.

Lemma warnings_app log1 log2 :
  warnings (log1 ++ log2) = (warnings log1 + warnings log2)%nat.
Proof. induction log1 as [|[] log1 IH]; simpl; lia. Qed.

(** The loop is left at the first key whose deriver raises, with the
    properties of the keys before it assigned. *)
Lemma build_first_failure clientData keys e : forall record,
  (build clientData keys record).1 = Throws e <->
  exists done key rest,
    keys = (done ++ key :: rest)%list /\
    Forall (fun key => returns (derive clientData key)) done /\
    derive clientData key = Throws e.
Proof.
  induction keys as [|k keys IH]; intros record; cbn [build].
  - split; [done |]. intros (done & key & rest & H & _). by destruct done.
  - destruct (derive clientData k) as [keyData|e'] eqn:E.
    + rewrite IH. split.
      * intros (done & key & rest & -> & Hdone & Hkey).
        exists (k :: done), key, rest. split; [done |]. split; [| done].
        constructor; [by eexists | done].
      * intros (done & key & rest & H & Hdone & Hkey).
        destruct done as [|k' done]; simplify_eq/=; [congruence |].
        exists done, key, rest. split; [done |]. split; [| done].
        by inversion Hdone.
    + cbn [fst]. split.
      * intros [= ->]. exists [], k, keys. by repeat split.
      * intros (done & key & rest & H & Hdone & Hkey).
        destruct done as [|k' done]; simplify_eq/=; [congruence |].
        inversion Hdone as [|? ? [v Hv] _]. congruence.
Qed.

(** X12: a call of [getClientData] writes the warning once when
    [requestedData] is truthy and no array, and never otherwise, whether
    or not the call returns.  It calls the notifier exactly once when it
    returns, as the last thing it does, with the record it returns as the
    second argument; it does not call the notifier when it raises. *)
Theorem getClientData_notifies_once this clientData opts σ :
  let r := the_getClientData this clientData (Some opts) σ in
  warnings (events r.2) = (warnings (events σ) + if warned opts then 1 else 0)%nat /\
  match r.1 with
  | Returns torrentData =>
      notifications (events r.2) = S (notifications (events σ)) /\
      exists previous,
        last (events r.2) = Some (CompareNewTorrentData previous torrentData (objects r.2))
  | Throws _ => notifications (events r.2) = notifications (events σ)
  end.
Proof.
  cbn zeta. rewrite getClientData_unfold. cbn zeta.
  destruct (build clientData (resolved opts) ∅).1 as [[]|e]; cbn [fst snd events objects].
  - rewrite !warnings_app, !notifications_app. split; [| split].
    + destruct (warned opts); simpl; lia.
    + destruct (warned opts); simpl; lia.
    + eexists. by rewrite last_snoc.
  - rewrite !warnings_app, !notifications_app.
    destruct (warned opts); simpl; lia.
Qed.

(** X15: [getClientData] raises [e] exactly when the resolved list has a
    key whose deriver raises [e] while the derivers of all keys before it
    return: the first failure ends the loop. *)
Theorem getClientData_first_failure this clientData opts σ e :
  (the_getClientData this clientData (Some opts) σ).1 = Throws e <->
  exists done key rest,
    resolved opts = (done ++ key :: rest)%list /\
    Forall (fun key => returns (derive clientData key)) done /\
    derive clientData key = Throws e.
Proof.
  rewrite getClientData_unfold. cbn zeta.
  rewrite <- (build_first_failure clientData (resolved opts) e ∅).
  destruct (build clientData (resolved opts) ∅).1 as [[]|e']; cbn [fst];
    [split; discriminate | split; congruence].
Qed.

Lemma recorded_missing clientData keys key :
  key ∉ keys -> recorded clientData keys key = VPrim PUndefined.
Proof. intros H. unfold recorded. rewrite decide_False; [done | by intros [? _]]. Qed.

Lemma recorded_lookup clientData keys key :
  (build clientData keys ∅).1 = Returns () ->
  default (VPrim PUndefined) ((build clientData keys ∅).2 !! key) =
  recorded clientData keys key.
Proof.
  intros H. rewrite (build_lookup _ _ _ _ _ _ _ H). unfold recorded.
  destruct (decide (key ∈ keys /\ key <> "__proto__")) as [Hin|_];
    [| by rewrite lookup_empty].
  by destruct (derive clientData key).
Qed.

(** The getters on an instance whose [torrentData] refers to [record]. *)
Lemma getters_of_record this torrentData record σ :
  get_prop this "torrentData" σ = VRef torrentData ->
  objects σ !! torrentData = Some record ->
  let read key := default (VPrim PUndefined) (record !! key) in
  basePath this σ = Returns (read "basePath") /\
  status this σ = Returns (or_empty_array (read "status")) /\
  tags this σ = Returns (or_empty_array (read "tags")) /\
  trackers this σ = Returns (or_empty_array (read "trackers")) /\
  objects (data this σ).2 !! (data this σ).1 = Some record.
Proof.
  intros Href Hrec. unfold basePath, status, tags, trackers, data, alloc.
  rewrite Href. cbn [member]. rewrite !(get_prop_lookup _ _ _ _ Hrec), Hrec.
  cbn [mbind completion_bind fst snd objects default].
  repeat split. by rewrite lookup_insert_eq.
Qed.


(** What a construction hands over to the update it is made of. *)
Lemma constructor_returns clientData opts now σ this σ' :
  the_constructor (Some clientData) opts now σ = (Returns this, σ') ->
  this = fresh (dom (objects σ)) /\
  the_updateData this clientData (Some (default no_options opts)) now
    (Store (<[this := ∅]> (objects σ)) (events σ)) = (Returns (), σ').
Proof.
  rewrite constructor_updateData. cbn zeta.
  destruct (the_updateData _ _ _ _ _) as [[[]|e] σ''] eqn:E; [| discriminate].
  by intros [= <- <-].
Qed.

Lemma allocated_insert (objs : gmap loc object) l o evs :
  l ∈ dom (objects (Store (<[l := o]> objs) evs)).
Proof. cbn [objects]. rewrite dom_insert_L. by apply elem_of_union_l, elem_of_singleton. Qed.

(** X9: after an update that returns, the getters read the record that
    was just built and nothing of the one before: [basePath] gives the
    value derived for that key, or [undefined] when the key is not in the
    resolved list; [status], [tags] and [trackers] give the derived value
    or, when it is falsy or the key is not in the list, an empty array;
    [data] gives a copy whose own properties are the keys of the resolved
    list other than [__proto__], each with its derived value.  The four
    getters read in the same way after a construction. *)
Theorem getters_read_new_record :
  (forall this clientData opts now σ σ',
     this ∈ dom (objects σ) ->
     the_updateData this clientData (Some opts) now σ = (Returns (), σ') ->
     let value_of key := recorded clientData (resolved opts) key in
     Forall (fun key => returns (derive clientData key)) (resolved opts) /\
     basePath this σ' = Returns (value_of "basePath") /\
     status this σ' = Returns (or_empty_array (value_of "status")) /\
     tags this σ' = Returns (or_empty_array (value_of "tags")) /\
     trackers this σ' = Returns (or_empty_array (value_of "trackers")) /\
     ("basePath" ∉ resolved opts -> basePath this σ' = Returns (VPrim PUndefined)) /\
     ("status" ∉ resolved opts -> status this σ' = Returns (VArr [])) /\
     ("tags" ∉ resolved opts -> tags this σ' = Returns (VArr [])) /\
     ("trackers" ∉ resolved opts -> trackers this σ' = Returns (VArr [])) /\
     exists copy,
       objects (data this σ').2 !! (data this σ').1 = Some copy /\
       dom copy = list_to_set (resolved opts) ∖ {["__proto__"]} /\
       forall key, key ∈ resolved opts -> key <> "__proto__" ->
         exists keyData,
           copy !! key = Some keyData /\ derive clientData key = Returns keyData) /\
  (forall clientData opts now σ this σ',
     the_constructor (Some clientData) opts now σ = (Returns this, σ') ->
     let value_of key := recorded clientData (resolved (default no_options opts)) key in
     basePath this σ' = Returns (value_of "basePath") /\
     status this σ' = Returns (or_empty_array (value_of "status")) /\
     tags this σ' = Returns (or_empty_array (value_of "tags")) /\
     trackers this σ' = Returns (or_empty_array (value_of "trackers"))).
Proof.
  assert (Hupdate : forall this clientData opts now σ σ',
     this ∈ dom (objects σ) ->
     the_updateData this clientData (Some opts) now σ = (Returns (), σ') ->
     (build clientData (resolved opts) ∅).1 = Returns () /\
     basePath this σ' = Returns (recorded clientData (resolved opts) "basePath") /\
     status this σ' = Returns (or_empty_array (recorded clientData (resolved opts) "status")) /\
     tags this σ' = Returns (or_empty_array (recorded clientData (resolved opts) "tags")) /\
     trackers this σ' = Returns (or_empty_array (recorded clientData (resolved opts) "trackers")) /\
     objects (data this σ').2 !! (data this σ').1 =
       Some (build clientData (resolved opts) ∅).2).
  { intros this clientData opts now σ σ' Hthis H.
    destruct (updateData_returns _ _ _ _ _ _ Hthis H)
      as (td & prev & objs & Htd & Hprev & _ & Hbuilt & Hrec & _ & Hobj & _ & _).
    apply elem_of_dom in Hthis as [inst Hinst]. rewrite Hinst in Hobj.
    assert (Href : get_prop this "torrentData" σ' = VRef td).
    { rewrite (get_prop_lookup _ _ _ _ Hobj). simpl. by rewrite lookup_insert_eq. }
    destruct (getters_of_record _ _ _ _ Href Hrec) as (G1 & G2 & G3 & G4 & G5).
    rewrite !recorded_lookup in * by done. done. }
  split.
  - intros this clientData opts now σ σ' Hthis H. cbn zeta.
    destruct (Hupdate _ _ _ _ _ _ Hthis H) as (Hbuilt & G1 & G2 & G3 & G4 & G5).
    split; [by apply build_returns in Hbuilt |].
    split; [done |]. split; [done |]. split; [done |]. split; [done |].
    split; [intros Hkey; by rewrite G1, recorded_missing |].
    split; [intros Hkey; by rewrite G2, recorded_missing |].
    split; [intros Hkey; by rewrite G3, recorded_missing |].
    split; [intros Hkey; by rewrite G4, recorded_missing |].
    pose proof (build_lookup _ _ _ _ _ _ _ Hbuilt) as Hlook.
    apply build_returns in Hbuilt. rewrite Forall_forall in Hbuilt.
    eexists. split; [exact G5 |]. split.
    + apply set_eq. intros key.
      rewrite elem_of_dom, elem_of_difference, elem_of_list_to_set, elem_of_singleton, Hlook.
      destruct (decide (key ∈ resolved opts /\ key <> "__proto__")) as [[Hin Hkey]|Hnin].
      * destruct (Hbuilt _ Hin) as [v ->]. split; [done | by eexists].
      * rewrite lookup_empty. split; [by intros [? ?] | done].
    + intros key Hin Hkey. destruct (Hbuilt _ Hin) as [v Hv]. exists v.
      by rewrite Hlook, decide_True, Hv.
  - intros clientData opts now σ this σ' H. cbn zeta.
    apply constructor_returns in H as [-> H].
    destruct (Hupdate _ _ _ _ _ _ (allocated_insert _ _ _ _) H) as (_ & G1 & G2 & G3 & G4 & _).
    done.
Qed.

(** X10: [updateData] stores the time before it builds the record:
    [lastUpdated] is [currentTime] when that is truthy and what the clock
    reads otherwise (so also for a [currentTime] of 0), whether the update
    returns or raises; when it raises, [torrentData] still refers to the
    record of before and the notifier has not been called.  After a
    construction [lastUpdated] is set in the same way, missing options
    counting as empty ones. *)
Theorem lastUpdated_stamped :
  (forall this clientData opts now σ r σ',
     this ∈ dom (objects σ) ->
     the_updateData this clientData (Some opts) now σ = (r, σ') ->
     get_prop this "lastUpdated" σ' =
       VPrim (if ToBoolean (currentTime opts) then currentTime opts else PNum now) /\
     (forall e, r = Throws e ->
        get_prop this "torrentData" σ' = get_prop this "torrentData" σ /\
        notifications (events σ') = notifications (events σ))) /\
  (forall clientData opts now σ this σ',
     the_constructor (Some clientData) opts now σ = (Returns this, σ') ->
     get_prop this "lastUpdated" σ' =
       VPrim (match opts with
              | Some opts => if ToBoolean (currentTime opts) then currentTime opts else PNum now
              | None => PNum now
              end)).
Proof.
  assert (Hts : forall opts now, timestamp opts now =
            VPrim (if ToBoolean (currentTime opts) then currentTime opts else PNum now))
    by (intros; unfold timestamp; by destruct (ToBoolean _)).
  assert (Hupdate : forall this clientData opts now σ r σ',
     this ∈ dom (objects σ) ->
     the_updateData this clientData (Some opts) now σ = (r, σ') ->
     get_prop this "lastUpdated" σ' = timestamp opts now /\
     (forall e, r = Throws e ->
        get_prop this "torrentData" σ' = get_prop this "torrentData" σ /\
        notifications (events σ') = notifications (events σ))).
  { intros this clientData opts now σ r σ' Hthis H.
    apply elem_of_dom in Hthis as Hinst. destruct Hinst as [inst Hinst].
    destruct r as [[]|e].
    - destruct (updateData_returns _ _ _ _ _ _ Hthis H)
        as (td & prev & objs & _ & _ & _ & _ & _ & _ & Hobj & _).
      rewrite Hinst in Hobj. split; [| done].
      rewrite (get_prop_lookup _ _ _ _ Hobj). simpl.
      by rewrite lookup_insert_ne, lookup_insert_eq.
    - destruct (updateData_throws _ _ _ _ _ _ _ Hthis H) as (td & _ & _ & Hobj & _ & Hev).
      rewrite Hinst in Hobj.
      split.
      + rewrite (get_prop_lookup _ _ _ _ Hobj). simpl. by rewrite lookup_insert_eq.
      + intros e' _. split.
        * rewrite (get_prop_lookup _ _ _ _ Hobj), (get_prop_lookup _ _ _ _ Hinst). simpl.
          by rewrite lookup_insert_ne.
        * rewrite Hev, notifications_app. destruct (warned opts); simpl; lia. }
  split.
  - intros this clientData opts now σ r σ' Hthis H. rewrite <- Hts. by eapply Hupdate.
  - intros clientData opts now σ this σ' H.
    apply constructor_returns in H as [-> H].
    destruct (Hupdate _ _ _ _ _ _ _ (allocated_insert _ _ _ _) H) as [-> _].
    rewrite Hts. by destruct opts.
Qed.

(** X11: [updateData] changes no object that exists apart from the
    instance, on which it assigns [lastUpdated] and [torrentData] and
    nothing else; it only adds to the log; called without options it
    raises a TypeError and changes nothing at all.  The constructor changes
    no object that exists, and the instance it returns is a new one. *)
Theorem existing_objects_unchanged :
  (forall this clientData opts now σ r σ',
     this ∈ dom (objects σ) ->
     the_updateData this clientData opts now σ = (r, σ') ->
     (forall l, l ∈ dom (objects σ) -> l ∈ dom (objects σ')) /\
     (forall l, l ∈ dom (objects σ) -> l <> this -> objects σ' !! l = objects σ !! l) /\
     (forall key, key <> "lastUpdated" -> key <> "torrentData" ->
        get_prop this key σ' = get_prop this key σ) /\
     (exists log, events σ' = (events σ ++ log)%list) /\
     (opts = None -> r = Throws TypeError /\ σ' = σ)) /\
  (forall clientData opts now σ r σ',
     the_constructor clientData opts now σ = (r, σ') ->
     (forall l, l ∈ dom (objects σ) -> objects σ' !! l = objects σ !! l) /\
     (forall this, r = Returns this -> this ∉ dom (objects σ)) /\
     (exists log, events σ' = (events σ ++ log)%list)).
Proof.
  assert (Hupdate : forall this clientData opts now σ r σ',
     this ∈ dom (objects σ) ->
     the_updateData this clientData (Some opts) now σ = (r, σ') ->
     objects σ' !! this <> None /\
     (forall key, key <> "lastUpdated" -> key <> "torrentData" ->
        get_prop this key σ' = get_prop this key σ) /\
     (forall l, l ∈ dom (objects σ) -> l <> this -> objects σ' !! l = objects σ !! l) /\
     (exists log, events σ' = (events σ ++ log)%list)).
  { intros this clientData opts now σ r σ' Hthis H.
    apply elem_of_dom in Hthis as Hinst. destruct Hinst as [inst Hinst].
    destruct r as [[]|e].
    - destruct (updateData_returns _ _ _ _ _ _ Hthis H)
        as (td & prev & objs & Htd & Hprev & _ & _ & _ & _ & Hobj & Hrest & Hev).
      rewrite Hinst in Hobj. split; [by rewrite Hobj |]. split; [| split].
      + intros key K1 K2.
        rewrite (get_prop_lookup _ _ _ _ Hobj), (get_prop_lookup _ _ _ _ Hinst). simpl.
        by rewrite !lookup_insert_ne.
      + intros l Hl Hne. apply Hrest; [done | |]; intros ->; done.
      + eexists. exact Hev.
    - destruct (updateData_throws _ _ _ _ _ _ _ Hthis H) as (td & Htd & _ & Hobj & Hrest & Hev).
      rewrite Hinst in Hobj. split; [by rewrite Hobj |]. split; [| split].
      + intros key K1 K2.
        rewrite (get_prop_lookup _ _ _ _ Hobj), (get_prop_lookup _ _ _ _ Hinst). simpl.
        by rewrite !lookup_insert_ne.
      + intros l Hl Hne. apply Hrest; [done |]. intros ->. done.
      + eexists. exact Hev. }
  split.
  - intros this clientData opts now σ r σ' Hthis H.
    destruct opts as [opts|]; [| injection H as <- <-].
    2: { repeat split; try done. exists []. by rewrite app_nil_r. }
    destruct (Hupdate _ _ _ _ _ _ _ Hthis H) as (H1 & H2 & H3 & H4).
    split; [| split; [done | split; [done | split; [done | done]]]].
    intros l Hl. apply elem_of_dom. destruct (decide (l = this)) as [->|Hne].
    + destruct (objects σ' !! this); [by eexists | done].
    + rewrite H3 by done. by apply elem_of_dom.
  - intros clientData opts now σ r σ'.
    pose proof (is_fresh (dom (objects σ))) as Hfresh.
    destruct clientData as [clientData|].
    + rewrite constructor_updateData. cbn zeta.
      destruct (the_updateData _ _ _ _ _) as [r0 σ0] eqn:Hup. cbn [fst snd].
      intros [= <- <-].
      destruct (Hupdate _ _ _ _ _ _ _ (allocated_insert _ _ _ _) Hup) as (_ & _ & H3 & H4).
      cbn [objects events] in *. split; [| split; [| done]].
      * intros l Hl. rewrite H3.
        -- apply lookup_insert_ne. intros E. by rewrite E in Hfresh.
        -- rewrite dom_insert_L. by apply elem_of_union_r.
        -- intros E. by rewrite <- E in Hfresh.
      * intros this Hr. destruct r0 as [[]|e]; [| discriminate]. by injection Hr as <-.
    + unfold constructor, alloc. intros [= <- <-]. cbn [objects events].
      split; [| split].
      * intros l Hl. apply lookup_insert_ne. intros E. by rewrite E in Hfresh.
      * by intros this [= <-].
      * exists []. by rewrite app_nil_r.
Qed.

(** X8: [new Torrent()] with no client data returns a new instance that
    has no property, whatever the options, and writes nothing to the log.
    On such an instance the getters [basePath], [status], [tags] and
    [trackers] raise a TypeError, and [data] gives an empty object. *)
Theorem constructor_without_data opts now σ :
  let r := the_constructor None opts now σ in
  exists this,
    r.1 = Returns this /\
    (this ∉ dom (objects σ)) /\
    objects r.2 !! this = Some ∅ /\
    events r.2 = events σ /\
    basePath this r.2 = Throws TypeError /\
    status this r.2 = Throws TypeError /\
    tags this r.2 = Throws TypeError /\
    trackers this r.2 = Throws TypeError /\
    objects (data this r.2).2 !! (data this r.2).1 = Some ∅.
Proof.
  cbn zeta. unfold constructor, alloc. cbn [fst snd objects events].
  exists (fresh (dom (objects σ))).
  split; [done |]. split; [apply is_fresh |].
  split; [by rewrite lookup_insert_eq |]. split; [done |].
  assert (Hget : get_prop (fresh (dom (objects σ))) "torrentData"
            (Store (<[fresh (dom (objects σ)) := ∅]> (objects σ)) (events σ))
          = VPrim PUndefined).
  { erewrite get_prop_lookup by (cbn [objects]; apply lookup_insert_eq).
    by rewrite lookup_empty. }
  unfold basePath, status, tags, trackers, data, alloc. rewrite Hget.
  cbn [member mbind completion_bind fst snd objects].
  repeat split. by rewrite lookup_insert_eq.
Qed.

Lemma data_alloc this σ : data this σ = alloc (current_record this (objects σ)) σ.
Proof. reflexivity. Qed.

Lemma current_record_insert_fresh this (objs : gmap loc object) l :
  objs !! l = None ->
  current_record this (<[l := current_record this objs]> objs) = current_record this objs.
Proof.
  intros Hnone. unfold current_record, get_prop. cbn [objects].
  destruct (decide (this = l)) as [->|Hne].
  - rewrite lookup_insert_eq, Hnone. simpl. by rewrite lookup_empty.
  - rewrite lookup_insert_ne by done.
    destruct (objs !! this ≫= lookup "torrentData") as [[| |r| |]|]; try done. simpl.
    destruct (decide (r = l)) as [->|Hr].
    + by rewrite lookup_insert_eq, Hnone.
    + by rewrite lookup_insert_ne.
Qed.

(** X14: the getter [data] makes a new object at every call: two calls
    in a row give two different objects, neither of which existed before,
    both with the properties of the current record; no object that existed
    is changed and nothing is logged. *)
Theorem data_copies this σ :
  let first := data this σ in
  let second := data this first.2 in
  first.1 <> second.1 /\
  (first.1 ∉ dom (objects σ)) /\
  (second.1 ∉ dom (objects σ)) /\
  objects second.2 !! first.1 = Some (current_record this (objects σ)) /\
  objects second.2 !! second.1 = Some (current_record this (objects σ)) /\
  (forall l, l ∈ dom (objects σ) -> objects second.2 !! l = objects σ !! l) /\
  events second.2 = events σ.
Proof.
  cbn zeta. rewrite !data_alloc. unfold alloc. cbn [fst snd objects events].
  set (source := current_record this (objects σ)).
  set (l1 := fresh (dom (objects σ))).
  set (objs1 := <[l1 := source]> (objects σ)).
  set (l2 := fresh (dom objs1)).
  assert (H1 : l1 ∉ dom (objects σ)) by apply is_fresh.
  assert (H2 : l2 ∉ dom objs1) by apply is_fresh.
  assert (Hdom : dom objs1 = {[l1]} ∪ dom (objects σ)) by apply dom_insert_L.
  rewrite Hdom in H2.
  assert (H12 : l1 <> l2).
  { intros E. apply H2. rewrite <- E. by apply elem_of_union_l, elem_of_singleton. }
  assert (H2' : l2 ∉ dom (objects σ)).
  { intros Hin. apply H2. by apply elem_of_union_r. }
  assert (Hnone : objects σ !! l1 = None) by by apply not_elem_of_dom.
  assert (Hsame : current_record this objs1 = source)
    by by apply current_record_insert_fresh.
  rewrite Hsame.
  split; [done |]. split; [done |]. split; [done |].
  split; [subst objs1; by rewrite lookup_insert_ne, lookup_insert_eq |].
  split; [by rewrite lookup_insert_eq |]. split; [| done].
  intros l Hl. subst objs1. rewrite !lookup_insert_ne; [done | |]; intros <-; done.
Qed.

End Instance.

(** X13: the name of the deriver is made from the key, so a key names
    whatever method is called [get] followed by the capitalized key.  When
    capitalizing turns [clientData] and [peerCount] into [ClientData] and
    [PeerCount], a requested list that holds one of the two makes
    [getClientData] raise, [getClientData] and [getPeerCount] not being
    derivers; the notifier is not called. *)
Theorem requested_method_names
    (decodeURIComponent : string -> completion string)
    (secondsToDuration : float -> string)
    (domainName_exec : string -> option (list (option string)))
    (capitalize : string -> string)
    (this : loc) (clientData : snapshot) (opts : options) (σ : store) :
  capitalize "clientData" = "ClientData" ->
  capitalize "peerCount" = "PeerCount" ->
  "clientData" ∈ resolved opts \/ "peerCount" ∈ resolved opts ->
  exists e σ',
    getClientData decodeURIComponent secondsToDuration domainName_exec capitalize
      this clientData (Some opts) σ = (Throws e, σ') /\
    notifications (events σ') = notifications (events σ).
Proof.
  intros Hc Hp Hin.
  assert (exists key, key ∈ resolved opts /\
            derive decodeURIComponent secondsToDuration domainName_exec capitalize
              clientData key = Throws TypeError)
    as (key & Hkey & Hder).
  { destruct Hin as [Hin|Hin]; eexists; (split; [exact Hin |]); unfold derive.
    - by rewrite Hc.
    - by rewrite Hp. }
  rewrite getClientData_unfold. cbn zeta.
  destruct (build _ _ _ _ clientData (resolved opts) ∅).1 as [[]|e] eqn:E.
  - apply build_returns in E. rewrite Forall_forall in E.
    destruct (E _ Hkey) as [v Hv]. congruence.
  - eexists _, _. split; [reflexivity |]. cbn [events].
    rewrite notifications_app. destruct (warned opts); simpl; lia.
Qed.

Lemma requested_method_names_witness :
  exists e σ',
    getClientData (fun _ => Throws URIError) (fun _ => "") (fun _ => None) capitalize_first
      0%nat first_snapshot (Some peer_count_requested) empty_store = (Throws e, σ') /\
    notifications (events σ') = notifications (events empty_store).
Proof.
  apply requested_method_names.
  - reflexivity.
  - reflexivity.
  - right. apply list_elem_of_further, list_elem_of_here.
Defined.

Lemma allocated_run_constructor : 0%nat ∈ dom (objects run_constructor.2).
Proof. apply elem_of_dom. eexists. vm_compute. reflexivity. Defined.

Lemma lastUpdated_stamped_witness :
  get_prop 0%nat "lastUpdated" run_failed_update.2 =
    VPrim (if ToBoolean (currentTime status_at_zero)
           then currentTime status_at_zero else PNum 7) /\
  (forall e, run_failed_update.1 = Throws e ->
     get_prop 0%nat "torrentData" run_failed_update.2 =
     get_prop 0%nat "torrentData" run_constructor.2 /\
     notifications (events run_failed_update.2) = notifications (events run_constructor.2)).
Proof.
  apply (proj1 (lastUpdated_stamped (fun _ => Throws URIError) (fun _ => "")
                  (fun _ => None) capitalize_first)
           0%nat empty_snapshot status_at_zero 7%float run_constructor.2).
  - exact allocated_run_constructor.
  - unfold run_failed_update. by destruct (updateData _ _ _ _ _ _ _ _ _).
Defined.

Lemma existing_objects_unchanged_witness :
  (forall l, l ∈ dom (objects run_constructor.2) -> l ∈ dom (objects run_updateData.2)) /\
  (forall l, l ∈ dom (objects run_constructor.2) -> l <> 0%nat ->
             objects run_updateData.2 !! l = objects run_constructor.2 !! l) /\
  (forall key, key <> "lastUpdated" -> key <> "torrentData" ->
     get_prop 0%nat key run_updateData.2 = get_prop 0%nat key run_constructor.2) /\
  (exists log, events run_updateData.2 = (events run_constructor.2 ++ log)%list) /\
  (Some hash_and_status = None -> run_updateData.1 = Throws TypeError /\
                                  run_updateData.2 = run_constructor.2).
Proof.
  apply (proj1 (existing_objects_unchanged (fun _ => Throws URIError) (fun _ => "")
                  (fun _ => None) capitalize_first)
           0%nat second_snapshot (Some hash_and_status) 0%float run_constructor.2).
  - exact allocated_run_constructor.
  - unfold run_updateData. by destruct (updateData _ _ _ _ _ _ _ _ _).
Defined.

Lemma getters_read_new_record_witness :
  let value_of key :=
    recorded (fun _ => Throws URIError) (fun _ => "") (fun _ => None) capitalize_first
      second_snapshot (resolved hash_and_status) key in
  Forall (fun key => returns (derive (fun _ => Throws URIError) (fun _ => "")
                                (fun _ => None) capitalize_first second_snapshot key))
    (resolved hash_and_status) /\
  basePath 0%nat run_updateData.2 = Returns (value_of "basePath") /\
  status 0%nat run_updateData.2 = Returns (or_empty_array (value_of "status")) /\
  tags 0%nat run_updateData.2 = Returns (or_empty_array (value_of "tags")) /\
  trackers 0%nat run_updateData.2 = Returns (or_empty_array (value_of "trackers")) /\
  ("basePath" ∉ resolved hash_and_status ->
   basePath 0%nat run_updateData.2 = Returns (VPrim PUndefined)) /\
  ("status" ∉ resolved hash_and_status -> status 0%nat run_updateData.2 = Returns (VArr [])) /\
  ("tags" ∉ resolved hash_and_status -> tags 0%nat run_updateData.2 = Returns (VArr [])) /\
  ("trackers" ∉ resolved hash_and_status ->
   trackers 0%nat run_updateData.2 = Returns (VArr [])) /\
  exists copy,
    objects (data 0%nat run_updateData.2).2 !! (data 0%nat run_updateData.2).1 = Some copy /\
    dom copy = list_to_set (resolved hash_and_status) ∖ {["__proto__"]} /\
    forall key, key ∈ resolved hash_and_status -> key <> "__proto__" ->
      exists keyData,
        copy !! key = Some keyData /\
        derive (fun _ => Throws URIError) (fun _ => "") (fun _ => None) capitalize_first
          second_snapshot key = Returns keyData.
Proof.
  apply (proj1 (getters_read_new_record (fun _ => Throws URIError) (fun _ => "")
                  (fun _ => None) capitalize_first)
           0%nat second_snapshot hash_and_status 0%float run_constructor.2).
  - exact allocated_run_constructor.
  - vm_compute. reflexivity.
Defined.

Example getters_after_update :
  status 0%nat run_updateData.2 =
    Returns (VArr [torrentStatusMap.complete; torrentStatusMap.seeding;
                   torrentStatusMap.inactive]) /\
  tags 0%nat run_updateData.2 = Returns (VArr []) /\
  trackers 0%nat run_updateData.2 = Returns (VArr []) /\
  basePath 0%nat run_updateData.2 = Returns (VPrim PUndefined).
Proof. by vm_compute. Qed.
